(** * Dm-mcp: SQL access control of the Dameng MCP server

    A shallow embedding of [src/database.py]: the [SQLValidator] class
    (statement classification and the three security modes), the denial
    messages, and the [DamengDatabase] query executor with its schema
    resolver.

    Text is modelled as [string]: a Python [str] restricted to the ASCII
    range, one [ascii] per code point.  Code points beyond ASCII are
    carried as their UTF-8 bytes, of 128 and above; they occur in message
    literals and in one counterexample.  [upper], [strip], [split] and the
    regular expression classes leave these bytes alone (no case, not white
    space, not word characters). *)

From Stdlib Require Import Bool Arith ZArith List Lia.
From Stdlib Require Import Strings.Ascii Strings.String.
From Stdlib Require Import DecimalString Permutation.
Import ListNotations.

Local Open Scope string_scope.
Local Open Scope bool_scope.

(** ** Characters *)

Module Char.

Definition code (c : ascii) : nat := nat_of_ascii c.

Definition between (lo hi : nat) (c : ascii) : bool :=
  (lo <=? code c)%nat && (code c <=? hi)%nat.

(** [str.isspace] on the ASCII range: TAB, LF, VT, FF, CR, the four
    separators FS, GS, RS, US, and the blank. *)
Definition isspace (c : ascii) : bool :=
  between 9 13 c || between 28 31 c || (code c =? 32)%nat.

Definition islower (c : ascii) : bool := between 97 122 c.

(** One character of [str.upper]. *)
Definition upper (c : ascii) : ascii :=
  if islower c then ascii_of_nat (code c - 32) else c.

(** The class [\w] of [re]: letters, digits and the underscore. *)
Definition isword (c : ascii) : bool :=
  between 48 57 c || between 65 90 c || between 97 122 c
  || (code c =? 95)%nat.

End Char.

(** ** The [str] methods the validator calls *)

Module Str.

Fixpoint upper (s : string) : string :=
  match s with
  | EmptyString => EmptyString
  | String c s' => String (Char.upper c) (upper s')
  end.

Definition is_empty (s : string) : bool :=
  match s with EmptyString => true | String _ _ => false end.

Fixpoint lstrip (s : string) : string :=
  match s with
  | EmptyString => EmptyString
  | String c s' => if Char.isspace c then lstrip s' else s
  end.

Fixpoint rstrip (s : string) : string :=
  match s with
  | EmptyString => EmptyString
  | String c s' =>
      let r := rstrip s' in
      if Char.isspace c && is_empty r then EmptyString else String c r
  end.

(** [s.strip()] *)
Definition strip (s : string) : string := rstrip (lstrip s).

(** [s.split()]: the maximal runs of characters that are not white
    space, in order.  [cur] is the run being read. *)
Fixpoint split_acc (cur : string) (s : string) : list string :=
  match s with
  | EmptyString => if is_empty cur then [] else [cur]
  | String c s' =>
      if Char.isspace c
      then (if is_empty cur then split_acc EmptyString s'
            else cur :: split_acc EmptyString s')
      else split_acc (cur ++ String c EmptyString) s'
  end.

Definition split (s : string) : list string := split_acc EmptyString s.

(** [s.startswith(p)] *)
Definition startswith (s p : string) : bool := String.prefix p s.

(** [s.startswith((p1, ..., pn))] *)
Definition startswith_any (s : string) (ps : list string) : bool :=
  existsb (startswith s) ps.

(** [needle in hay] on two strings: substring test. *)
Fixpoint contains (needle hay : string) : bool :=
  String.prefix needle hay ||
  match hay with
  | EmptyString => false
  | String _ hay' => contains needle hay'
  end.

(** [x in S] for a set of strings. *)
Definition mem (x : string) (S : list string) : bool :=
  existsb (String.eqb x) S.

Fixpoint all (p : ascii -> bool) (s : string) : bool :=
  match s with
  | EmptyString => true
  | String c s' => p c && all p s'
  end.

Fixpoint last (s : string) : option ascii :=
  match s with
  | EmptyString => None
  | String c EmptyString => Some c
  | String _ s' => last s'
  end.

Definition first (s : string) : option ascii :=
  match s with EmptyString => None | String c _ => Some c end.

End Str.

(** ** The fragment of [re] used by the validator

    The seven patterns are built from literal characters, the word
    boundary [\b], and the repetitions [\s+] and [\w+]. *)

Module Re.

Inductive cclass : Type := Space | Word.

Inductive token : Type :=
| Lit (c : ascii)
| Bound
| Plus (k : cclass).

Definition regex : Type := list token.

Definition in_class (k : cclass) : ascii -> bool :=
  match k with Space => Char.isspace | Word => Char.isword end.

Definition backslash : ascii := ascii_of_nat 92.

(** [re.compile] on this fragment; [None] for anything else. *)
Fixpoint compile (p : string) : option regex :=
  match p with
  | EmptyString => Some []
  | String c p1 =>
      if Ascii.eqb c backslash then
        match p1 with
        | String "b" p2 => option_map (cons Bound) (compile p2)
        | String "s" (String "+" p3) =>
            option_map (cons (Plus Space)) (compile p3)
        | String "w" (String "+" p3) =>
            option_map (cons (Plus Word)) (compile p3)
        | _ => None
        end
      else if Char.isword c || Char.isspace c
      then option_map (cons (Lit c)) (compile p1)
      else None
  end.

Definition wordp (o : option ascii) : bool :=
  match o with Some c => Char.isword c | None => false end.

(** [\b] holds between [prev] and [next] when exactly one of them is a
    word character; the ends of the text count as non-word. *)
Definition at_boundary (prev next : option ascii) : bool :=
  xorb (wordp prev) (wordp next).

(** One or more characters of the class, then the continuation [k];
    the longest run is tried first, as the greedy [+] does. *)
Fixpoint plus_loop (p : ascii -> bool) (k : option ascii -> string -> bool)
         (s : string) : bool :=
  match s with
  | EmptyString => false
  | String c s' => p c && (plus_loop p k s' || k (Some c) s')
  end.

(** Does [r] match at the head of [s], [prev] being the character just
    before? *)
Fixpoint match_here (r : regex) (prev : option ascii) (s : string)
  {struct r} : bool :=
  match r with
  | [] => true
  | Lit c :: r' =>
      match s with
      | EmptyString => false
      | String a s' => Ascii.eqb a c && match_here r' (Some a) s'
      end
  | Bound :: r' => at_boundary prev (Str.first s) && match_here r' prev s
  | Plus k :: r' => plus_loop (in_class k) (match_here r') s
  end.

Fixpoint search_from (r : regex) (prev : option ascii) (s : string) : bool :=
  match_here r prev s ||
  match s with
  | EmptyString => false
  | String a s' => search_from r (Some a) s'
  end.

(** [bool(re.search(pattern, s))] *)
Definition search (pattern : string) (s : string) : bool :=
  match compile pattern with
  | Some r => search_from r None s
  | None => false
  end.

(** *** What a match is

  [denotes r prev m post]: the regular expression [r] matches exactly
  the text [m], when [prev] is the character before [m] and [post] is
  the text after it. *)

Inductive denotes : regex -> option ascii -> string -> string -> Prop :=
| den_nil prev post :
    denotes [] prev "" post
| den_lit c r prev m post :
    denotes r (Some c) m post ->
    denotes (Lit c :: r) prev (String c m) post
| den_bound r prev m post :
    at_boundary prev (Str.first (m ++ post)) = true ->
    denotes r prev m post ->
    denotes (Bound :: r) prev m post
| den_plus k r prev c w m post :
    in_class k c = true ->
    Str.all (in_class k) w = true ->
    denotes r (Str.last (String c w)) m post ->
    denotes (Plus k :: r) prev (String c w ++ m) post.

(** The character before the match, [pre] being the text before it. *)
Definition before (prev : option ascii) (pre : string) : option ascii :=
  match Str.last pre with Some c => Some c | None => prev end.

(** [pattern] matches somewhere in [s]. *)
Definition occurs (pattern : string) (s : string) : Prop :=
  exists r, compile pattern = Some r /\
  exists pre m post, s = pre ++ m ++ post /\ denotes r (Str.last pre) m post.

End Re.

(** ** Configuration

    [config.py] is not part of the sources at hand; what the database
    module reads from it is rendered here. *)

(** Modelled from the spec: the enumeration [SecurityMode] of [config.py],
    with its three members. *)
Inductive SecurityMode : Type := READONLY | LIMITED_WRITE | FULL_ACCESS.

(** Modelled from the spec: the three schema-visibility strategies that
    [config.allowed_schemas] encodes (the wildcard, the auto-discovery
    sentinel, or an explicit collection of names). *)
Inductive SchemaVisibility : Type :=
| AllSchemas
| AutoDiscover
| Explicit (names : list string).

Record Config : Type := mkConfig {
  security_mode : SecurityMode;
  schema_visibility : SchemaVisibility;
  max_result_rows : Z;
  enable_query_log : bool;
  database : string
}.

(** ** [class SQLValidator] *)

Module SQLValidator.

Definition READONLY_OPERATIONS : list string :=
  ["SELECT"; "WITH"; "SHOW"; "DESCRIBE"; "EXPLAIN"; "ANALYZE"].

Definition WRITE_OPERATIONS : list string := ["INSERT"; "UPDATE"].

Definition DANGEROUS_OPERATIONS : list string :=
  ["DELETE"; "DROP"; "CREATE"; "ALTER"; "TRUNCATE"; "GRANT"; "REVOKE"].

(** [a.union(b)] *)
Definition union (a b : list string) : list string := (a ++ b)%list.

Definition _extract_first_keyword (sql_upper : string) : string :=
  match Str.split sql_upper with
  | [] => ""
  | w :: _ => w
  end.

Definition dangerous_patterns : list string :=
  [ "\bDROP\s+TABLE\b";
    "\bTRUNCATE\s+TABLE\b";
    "\bDELETE\s+FROM\b";
    "\bINSERT\s+INTO\b";
    "\bUPDATE\s+\w+\s+SET\b";
    "\bCREATE\s+TABLE\b";
    "\bALTER\s+TABLE\b" ].

(** A [for] loop over [xs] that returns [False] at the first element
    satisfying [hit], and falls through otherwise. *)
Definition none_hits {A} (hit : A -> bool) (xs : list A) : bool :=
  negb (existsb hit xs).

Definition _validate_readonly (first_keyword sql_upper : string) : bool :=
  if negb (Str.mem first_keyword READONLY_OPERATIONS) then false
  else if String.eqb first_keyword "SELECT" then
    none_hits (fun pattern => Re.search pattern sql_upper) dangerous_patterns
  else
    let forbidden_in_readonly := union WRITE_OPERATIONS DANGEROUS_OPERATIONS in
    none_hits (fun forbidden => Str.contains forbidden sql_upper)
              forbidden_in_readonly.

Definition _validate_limited_write (first_keyword sql_upper : string) : bool :=
  let allowed_operations := union READONLY_OPERATIONS WRITE_OPERATIONS in
  if negb (Str.mem first_keyword allowed_operations) then false
  else
    none_hits (fun dangerous => Str.contains dangerous sql_upper)
              DANGEROUS_OPERATIONS.

(** The closing [return False] of the source is reached for no member of
    the enumeration. *)
Definition validate_sql (sql : string) (security_mode : SecurityMode) : bool :=
  let sql_upper := Str.strip (Str.upper sql) in
  let first_keyword := _extract_first_keyword sql_upper in
  match security_mode with
  | READONLY => _validate_readonly first_keyword sql_upper
  | LIMITED_WRITE => _validate_limited_write first_keyword sql_upper
  | FULL_ACCESS => true
  end.

Definition get_error_message (sql : string) (security_mode : SecurityMode)
  : string :=
  let sql_upper := Str.strip (Str.upper sql) in
  let first_keyword := _extract_first_keyword sql_upper in
  match security_mode with
  | READONLY =>
      if Str.mem first_keyword WRITE_OPERATIONS
      then "只读模式下禁止写入操作: " ++ first_keyword
      else if Str.mem first_keyword DANGEROUS_OPERATIONS
      then "只读模式下禁止危险操作: " ++ first_keyword
      else "只读模式下不支持的操作: " ++ first_keyword
  | LIMITED_WRITE =>
      if Str.mem first_keyword DANGEROUS_OPERATIONS
      then "限制写入模式下禁止危险操作: " ++ first_keyword
      else "限制写入模式下不支持的操作: " ++ first_keyword
  | FULL_ACCESS => "操作被安全策略禁止"
  end.

End SQLValidator.

(** ** Values, rows and exceptions *)

Inductive value : Type :=
| VNone
| VInt (z : Z)
| VStr (s : string).

(** A Python [dict] with string keys: the bindings in insertion order,
    one per key. *)
Definition dict : Type := list (string * value).

Fixpoint dict_set (k : string) (v : value) (d : dict) : dict :=
  match d with
  | [] => [(k, v)]
  | (k', v') :: d' =>
      if String.eqb k k' then (k, v) :: d' else (k', v') :: dict_set k v d'
  end.

(** [dict(pairs)] *)
Definition dict_of (pairs : list (string * value)) : dict :=
  fold_left (fun d kv => dict_set (fst kv) (snd kv) d) pairs [].

(** [l[:n]], also for a negative [n]. *)
Definition slice_to {A} (n : Z) (l : list A) : list A :=
  if (0 <=? n)%Z then firstn (Z.to_nat n) l
  else firstn (Z.to_nat (Z.of_nat (List.length l) + n)) l.

(** The exceptions that travel through the module; all three are
    instances of [Exception]. *)
Inductive exn : Type :=
| ValueError (msg : string)
| DmError (msg : string)          (* dmPython.Error *)
| OtherException (msg : string).

Definition is_dm_error (e : exn) : bool :=
  match e with DmError _ => true | _ => false end.

Inductive result (A : Type) : Type :=
| Ok (a : A)
| Raise (e : exn).
Arguments Ok {A} a.
Arguments Raise {A} e.

(** ** What the module does to the outside: driver calls and log lines *)

Inductive log_level : Type := INFO | WARNING | ERROR.

Inductive log_msg : Type :=
| MsgDbInstance
| MsgReadonlySet
| MsgConnected
| MsgConnError
| MsgClosed
| MsgExecSql
| MsgTruncated (limit : Z)
| MsgReturned (n : nat)
| MsgAffected (n : Z)
| MsgSqlFailed.

Inductive event : Type :=
| Connect
| Execute (sql : string) (params : option (list value))
| FetchAll
| Commit
| Close
| Log (level : log_level) (m : log_msg).

(** The dmPython driver and the database behind it, as a state machine.
    A connection and its cursor are one state; creating and disposing of
    the cursor object is not an event of its own. *)
Record Driver : Type := mkDriver {
  db : Type;
  dm_connect : db -> db * result unit;
  dm_execute : string -> option (list value) -> db -> db * result unit;
  dm_fetchall : db -> db * result (list (list value));
  dm_description : db -> option (list string);
  dm_rowcount : db -> Z;
  dm_commit : db -> db * result unit;
  dm_close : db -> db
}.

(** ** A monad for the executor: driver state, trace, exceptions *)

Module Exec.

Record world (drv : Driver) : Type := mkWorld {
  wdb : db drv;
  wtrace : list event      (* oldest first *)
}.
Arguments mkWorld {drv} wdb wtrace.
Arguments wdb {drv} w.
Arguments wtrace {drv} w.

Definition M (drv : Driver) (A : Type) : Type :=
  world drv -> world drv * result A.

Section Monad.
Context {drv : Driver}.

Definition ret {A} (a : A) : M drv A := fun w => (w, Ok a).

Definition bind {A B} (m : M drv A) (k : A -> M drv B) : M drv B :=
  fun w =>
    match m w with
    | (w', Ok a) => k a w'
    | (w', Raise e) => (w', Raise e)
    end.

Definition raise {A} (e : exn) : M drv A := fun w => (w, Raise e).

Definition emit (ev : event) : M drv unit :=
  fun w => (mkWorld (wdb w) (wtrace w ++ [ev]), Ok tt).

(** [try: m  except Exception as e: h e] *)
Definition try_except {A} (m : M drv A) (h : exn -> M drv A) : M drv A :=
  fun w =>
    match m w with
    | (w', Ok a) => (w', Ok a)
    | (w', Raise e) => h e w'
    end.

(** [try: m  finally: f] where [f] does not raise. *)
Definition try_finally {A} (m : M drv A) (f : M drv unit) : M drv A :=
  fun w =>
    match m w with
    | (w', r) => (fst (f w'), r)
    end.

(** A driver call that may raise: recorded, then run on the state. *)
Definition call {A} (ev : event) (op : db drv -> db drv * result A)
  : M drv A :=
  fun w =>
    match op (wdb w) with
    | (d, r) => (mkWorld d (wtrace w ++ [ev]), r)
    end.

(** Reading an attribute of the cursor. *)
Definition read {A} (attr : db drv -> A) : M drv A :=
  fun w => (w, Ok (attr (wdb w))).

Definition log (level : log_level) (m : log_msg) : M drv unit :=
  emit (Log level m).

End Monad.

Notation "x <- c1 ;; c2" := (bind c1 (fun x => c2))
  (at level 61, c1 at next level, right associativity).
Notation "c1 ;; c2" := (bind c1 (fun _ => c2))
  (at level 61, right associativity).

End Exec.

(** ** [class DamengDatabase] *)

Module DamengDatabase.
Import Exec.

(** Modelled from the spec: [config.is_readonly_mode()] of [config.py],
    true exactly in the ReadOnly security mode. *)
Definition is_readonly_mode (cfg : Config) : bool :=
  match security_mode cfg with READONLY => true | _ => false end.

(** Modelled from the spec: [config.is_all_schemas_allowed()], the
    wildcard strategy. *)
Definition is_all_schemas_allowed (cfg : Config) : bool :=
  match schema_visibility cfg with AllSchemas => true | _ => false end.

(** Modelled from the spec: [config.is_auto_discover_schemas()], the
    probe-based strategy. *)
Definition is_auto_discover_schemas (cfg : Config) : bool :=
  match schema_visibility cfg with AutoDiscover => true | _ => false end.

(** Modelled from the spec: [config.allowed_schemas], the configured
    collection: the wildcard, the auto-discovery sentinel, or the
    explicit names. *)
Definition allowed_schemas (cfg : Config) : list string :=
  match schema_visibility cfg with
  | AllSchemas => ["*"]
  | AutoDiscover => ["auto"]
  | Explicit names => names
  end.

(** The prefixes [execute_query] tests to tell a query from an update. *)
Definition query_prefixes : list string :=
  ["SELECT"; "WITH"; "SHOW"; "DESCRIBE"; "EXPLAIN"].

Definition summary (affected_rows : Z) : list dict :=
  [ [("affected_rows", VInt affected_rows); ("status", VStr "success")] ].

Definition test_sql : string := "
                SELECT USERNAME 
                FROM ALL_USERS 
                WHERE USERNAME = ?
                ".

Section Instance.
Variable cfg : Config.
Variable drv : Driver.

(** [except dmPython.Error as e: logger.error(...); raise] *)
Definition log_dm_error {A} (m : log_msg) (body : M drv A) : M drv A :=
  try_except body
    (fun e => if is_dm_error e then log ERROR m ;; raise e else raise e).

(** [with self.get_connection() as conn: body] *)
Definition get_connection {A} (body : M drv A) : M drv A :=
  fun w =>
    match call Connect (dm_connect drv) w with
    | (w1, Raise e) =>
        (* [conn] is still [None]: the [finally] clause closes nothing *)
        (if is_dm_error e then log ERROR MsgConnError ;; raise e
         else raise e) w1
    | (w1, Ok _) =>
        try_finally
          (log_dm_error MsgConnError
             ((if Str.is_empty (database cfg) then ret tt
               else log INFO MsgDbInstance) ;;
              (if is_readonly_mode cfg then
                 call (Execute "SET SESSION AUTOCOMMIT = 0" None)
                      (dm_execute drv "SET SESSION AUTOCOMMIT = 0" None) ;;
                 log INFO MsgReadonlySet
               else ret tt) ;;
              call Commit (dm_commit drv) ;;
              log INFO MsgConnected ;;
              body))
          (emit Close ;;
           (fun w => (mkWorld (dm_close drv (wdb w)) (wtrace w), Ok tt)) ;;
           log INFO MsgClosed)
          w1
    end.

(** The row-limit step of [execute_query]. *)
Definition limit_rows (result_dicts : list dict) : M drv (list dict) :=
  if (max_result_rows cfg <? Z.of_nat (List.length result_dicts))%Z then
    log WARNING (MsgTruncated (max_result_rows cfg)) ;;
    ret (slice_to (max_result_rows cfg) result_dicts)
  else ret result_dicts.

(** [[desc[0] for desc in cur.description] if cur.description else []] *)
Definition column_names (description : option (list string)) : list string :=
  match description with
  | Some (c :: cs) => c :: cs
  | _ => []
  end.

(** [dict(zip(columns, row))] *)
Definition row_dict (columns : list string) (row : list value) : dict :=
  dict_of (combine columns row).

(** The branch of [execute_query] for queries: fetch, key the rows by
    column name, limit. *)
Definition fetch_results : M drv (list dict) :=
  results <- call FetchAll (dm_fetchall drv) ;;
  description <- read (dm_description drv) ;;
  let columns := column_names description in
  let result_dicts := map (row_dict columns) results in
  result_dicts <- limit_rows result_dicts ;;
  log INFO (MsgReturned (List.length result_dicts)) ;;
  ret result_dicts.

(** The branch of [execute_query] for everything else: commit and
    report the number of rows affected. *)
Definition commit_update : M drv (list dict) :=
  call Commit (dm_commit drv) ;;
  affected_rows <- read (dm_rowcount drv) ;;
  log INFO (MsgAffected affected_rows) ;;
  ret (summary affected_rows).

Definition execute_query (sql : string) (params : option (list value))
  : M drv (list dict) :=
  if negb (SQLValidator.validate_sql sql (security_mode cfg)) then
    let error_msg := SQLValidator.get_error_message sql (security_mode cfg) in
    raise (ValueError ("SQL操作被安全策略禁止: " ++ error_msg))
  else
    (if enable_query_log cfg then log INFO MsgExecSql else ret tt) ;;
    get_connection
      (log_dm_error MsgSqlFailed
         (call (Execute sql params) (dm_execute drv sql params) ;;
          if Str.startswith_any (Str.strip (Str.upper sql)) query_prefixes
          then fetch_results
          else commit_update)).

Definition execute_safe_query (sql : string) (params : option (list value))
  : M drv (list dict) :=
  if negb (SQLValidator.validate_sql sql READONLY) then
    raise (ValueError "系统查询必须是只读操作")
  else execute_query sql params.

Definition _is_schema_allowed (schema : string) : M drv bool :=
  if is_all_schemas_allowed cfg then ret true
  else if is_auto_discover_schemas cfg then
    try_except
      (result <- execute_safe_query test_sql (Some [VStr schema]) ;;
       ret (0 <? List.length result)%nat)
      (fun _ => ret false)
  else ret (Str.mem schema (allowed_schemas cfg)).

End Instance.

End DamengDatabase.

(** ** Vocabulary of the properties *)

Module Spec.
Import SQLValidator DamengDatabase Exec.

(** The text the validator inspects: [sql.upper().strip()]. *)
Definition normalized (sql : string) : string := Str.strip (Str.upper sql).

(** The leading keyword of a statement. *)
Definition keyword (sql : string) : string :=
  _extract_first_keyword (normalized sql).

(** [k] occurs somewhere in [s], possibly inside a longer word. *)
Definition substring (k s : string) : Prop :=
  exists pre post, s = pre ++ k ++ post.

Fixpoint take_while (p : ascii -> bool) (s : string) : string :=
  match s with
  | EmptyString => EmptyString
  | String c s' => if p c then String c (take_while p s') else EmptyString
  end.

Definition nonspace (c : ascii) : bool := negb (Char.isspace c).

(** The maximal runs of word characters of a text; [cur] is the run
    being read. *)
Fixpoint words_acc (cur : string) (s : string) : list string :=
  match s with
  | EmptyString => if Str.is_empty cur then [] else [cur]
  | String c s' =>
      if Char.isword c then words_acc (cur ++ String c EmptyString) s'
      else if Str.is_empty cur then words_acc EmptyString s'
      else cur :: words_acc EmptyString s'
  end.

Definition word_tokens (s : string) : list string := words_acc "" s.

(** The ReadOnly verdict as the specification words it: off the SELECT
    path only a write or dangerous keyword standing as a whole token
    counts against the statement. *)
Definition readonly_allows_by_tokens (sql : string) : bool :=
  let s := normalized sql in
  let kw := keyword sql in
  Str.mem kw READONLY_OPERATIONS &&
  (if String.eqb kw "SELECT"
   then none_hits (fun pattern => Re.search pattern s) dangerous_patterns
   else none_hits (fun k => Str.mem k (word_tokens s))
                  (union WRITE_OPERATIONS DANGEROUS_OPERATIONS)).

(** *** Letter case and surrounding blanks *)




Definition blank (ws : string) : Prop := Str.all Char.isspace ws = true.


(** *** The two ways a permitted statement can run *)

Definition run_with (cfg : Config) (drv : Driver) (sql : string)
           (params : option (list value))
           (branch : M drv (list dict)) : M drv (list dict) :=
  (if enable_query_log cfg then log INFO MsgExecSql else ret tt) ;;
  get_connection cfg drv
    (log_dm_error drv MsgSqlFailed
       (call (Execute sql params) (dm_execute drv sql params) ;; branch)).

(** Executed as a query: rows are fetched and returned. *)
Definition runs_as_query (cfg : Config) (drv : Driver) sql params : Prop :=
  forall w, execute_query cfg drv sql params w
            = run_with cfg drv sql params (fetch_results cfg drv) w.

(** Executed as an update: the transaction is committed and the
    summary record returned. *)
Definition runs_as_update (cfg : Config) (drv : Driver) sql params : Prop :=
  forall w, execute_query cfg drv sql params w
            = run_with cfg drv sql params (commit_update drv) w.

(** *** Sample collaborators *)

Definition sample_rows : list (list value) :=
  [ [VInt 1; VStr "SYSDBA"]; [VInt 2; VStr "APP"]; [VInt 3; VStr "HR"] ].

(** A database that accepts every call and answers every fetch with
    [sample_rows]; its state counts the commits. *)
Definition sample_driver : Driver :=
  mkDriver nat
    (fun d => (d, Ok tt))
    (fun _ _ d => (d, Ok tt))
    (fun d => (d, Ok sample_rows))
    (fun _ => Some ["ID"; "USERNAME"])
    (fun _ => 0%Z)
    (fun d => (S d, Ok tt))
    (fun d => d).

(** A database that cannot be reached. *)
Definition offline_driver : Driver :=
  mkDriver unit
    (fun d => (d, Raise (DmError "connection refused")))
    (fun _ _ d => (d, Ok tt))
    (fun d => (d, Ok []))
    (fun _ => None)
    (fun _ => 0%Z)
    (fun d => (d, Ok tt))
    (fun d => d).

Definition sample_config (m : SecurityMode) (v : SchemaVisibility) (n : Z)
  : Config := mkConfig m v n false "".

End Spec.

(** ** More of the Python built-ins *)

Module Py.

Definition isupper (c : ascii) : bool := Char.between 65 90 c.

(** One character of [str.lower]. *)
Definition char_lower (c : ascii) : ascii :=
  if isupper c then ascii_of_nat (Char.code c + 32) else c.

Fixpoint lower (s : string) : string :=
  match s with
  | EmptyString => EmptyString
  | String c s' => String (char_lower c) (lower s')
  end.

(** [d.get(k)]: the binding of [k], if there is one. *)
Fixpoint dict_get (k : string) (d : dict) : option value :=
  match d with
  | [] => None
  | (k', v) :: d' => if String.eqb k k' then Some v else dict_get k d'
  end.

(** [d.get(k, None)] *)
Definition get_or_none (k : string) (d : dict) : value :=
  match dict_get k d with Some v => v | None => VNone end.

Definition is_none (v : value) : bool :=
  match v with VNone => true | _ => false end.

(** The truth value of a Python object. *)
Definition truthy (v : value) : bool :=
  match v with
  | VNone => false
  | VInt z => negb (z =? 0)%Z
  | VStr s => negb (Str.is_empty s)
  end.

(** [str(v)] *)
Definition str (v : value) : string :=
  match v with
  | VNone => "None"
  | VInt z => NilZero.string_of_int (Z.to_int z)
  | VStr s => s
  end.

Definition newline : string := String (ascii_of_nat 10) EmptyString.

(** [sep.join(xs)] *)
Fixpoint join (sep : string) (xs : list string) : string :=
  match xs with
  | [] => EmptyString
  | [x] => x
  | x :: xs' => x ++ sep ++ join sep xs'
  end.

End Py.

(** ** [class DamengDatabase], the catalog queries *)

Module Catalog.
Import Exec DamengDatabase.

(** The warnings and errors these functions log themselves, in the
    order they log them; they are returned beside the value. *)
Inductive notice : Type :=
| IndexInfoFailed
| ConstraintInfoFailed
| ConnectionTestFailed.

Definition tables_sql : string := "
        SELECT 
            OWNER AS schemaname,
            TABLE_NAME AS tablename,
            OWNER AS tableowner,
            'YES' AS hasindexes,
            'NO' AS hasrules,
            'NO' AS hastriggers,
            'NO' AS rowsecurity
        FROM ALL_TABLES 
        WHERE OWNER = ? 
        ORDER BY TABLE_NAME
        ".

Definition schemas_sql : string := "
        SELECT USERNAME as schemaname
        FROM ALL_USERS 
        WHERE USERNAME NOT IN ('SYS', 'SYSTEM', 'SYSAUDITOR', 'CTXSYS', 'SYSDBA')
        ORDER BY USERNAME
        ".

Definition structure_sql : string := "
        SELECT 
            c.COLUMN_NAME as column_name,
            c.DATA_TYPE as data_type,
            c.DATA_LENGTH as character_maximum_length,
            c.DATA_PRECISION as numeric_precision,
            c.DATA_SCALE as numeric_scale,
            CASE WHEN c.NULLABLE = 'Y' THEN 'YES' ELSE 'NO' END as is_nullable,
            c.DATA_DEFAULT as column_default,
            c.COLUMN_ID as ordinal_position,
            CASE 
                WHEN pk.COLUMN_NAME IS NOT NULL THEN 'YES'
                ELSE 'NO'
            END as is_primary_key,
            c.COMMENTS as column_comment
        FROM ALL_TAB_COLUMNS c
        LEFT JOIN (
            SELECT cc.COLUMN_NAME
            FROM ALL_CONSTRAINTS cons
            INNER JOIN ALL_CONS_COLUMNS cc ON cons.CONSTRAINT_NAME = cc.CONSTRAINT_NAME
            WHERE cons.CONSTRAINT_TYPE = 'P'
                AND cons.TABLE_NAME = ?
                AND cons.OWNER = ?
        ) pk ON c.COLUMN_NAME = pk.COLUMN_NAME
        WHERE c.TABLE_NAME = ?
            AND c.OWNER = ?
        ORDER BY c.COLUMN_ID
        ".

Definition indexes_sql : string := "
            SELECT 
                INDEX_NAME as indexname,
                'CREATE INDEX ' || INDEX_NAME || ' ON ' || TABLE_NAME as indexdef,
                CASE WHEN UNIQUENESS = 'UNIQUE' THEN 'YES' ELSE 'NO' END as is_unique
            FROM ALL_INDEXES 
            WHERE TABLE_NAME = ? 
                AND OWNER = ?
            ORDER BY INDEX_NAME
            ".

Definition constraints_sql : string := "
            SELECT 
                cons.CONSTRAINT_NAME as constraint_name,
                cons.CONSTRAINT_TYPE as constraint_type,
                cc.COLUMN_NAME as column_name,
                CASE 
                    WHEN cons.CONSTRAINT_TYPE = 'R' THEN
                        ref_cons.OWNER||'.'||ref_cons.TABLE_NAME||'.'||ref_cc.COLUMN_NAME
                    ELSE NULL
                END as foreign_key_references
            FROM ALL_CONSTRAINTS cons
            LEFT JOIN ALL_CONS_COLUMNS cc ON cons.CONSTRAINT_NAME = cc.CONSTRAINT_NAME AND cons.OWNER = cc.OWNER
            LEFT JOIN ALL_CONSTRAINTS ref_cons ON cons.R_CONSTRAINT_NAME = ref_cons.CONSTRAINT_NAME
            LEFT JOIN ALL_CONS_COLUMNS ref_cc ON ref_cons.CONSTRAINT_NAME = ref_cc.CONSTRAINT_NAME AND ref_cons.OWNER = ref_cc.OWNER
            WHERE cons.TABLE_NAME = ?
                AND cons.OWNER = ?
            ORDER BY cons.CONSTRAINT_TYPE, cons.CONSTRAINT_NAME
            ".

Definition connection_sql : string := "SELECT 1 as test_connection FROM DUAL".

Section Instance.
Variable cfg : Config.
Variable drv : Driver.

(** [str(self.config.allowed_schemas)]: how Python prints the configured
    collection of names. *)
Variable display_names : list string -> string.

Definition _get_allowed_schemas_display : string :=
  if is_all_schemas_allowed cfg then "所有模式(*)"
  else if is_auto_discover_schemas cfg then "自动发现(auto)"
  else display_names (allowed_schemas cfg).

(** The [ValueError] of a schema that may not be visited. *)
Definition schema_denied (schema : string) : exn :=
  ValueError ("不允许访问模式: " ++ schema ++ "，允许的模式: "
              ++ _get_allowed_schemas_display).

Definition get_all_tables (schema : string) : M drv (list dict) :=
  allowed <- _is_schema_allowed cfg drv schema ;;
  if negb allowed then raise (schema_denied schema)
  else execute_safe_query cfg drv tables_sql (Some [VStr schema]).

Definition get_available_schemas : M drv (list dict) :=
  execute_safe_query cfg drv schemas_sql None.

Definition get_table_structure (table_name schema : string)
  : M drv (list dict) :=
  allowed <- _is_schema_allowed cfg drv schema ;;
  if negb allowed then raise (schema_denied schema)
  else execute_safe_query cfg drv structure_sql
         (Some [VStr table_name; VStr schema; VStr table_name; VStr schema]).

Definition get_table_indexes (table_name schema : string)
  : M drv (list dict * list notice) :=
  allowed <- _is_schema_allowed cfg drv schema ;;
  if negb allowed then raise (schema_denied schema)
  else
    try_except
      (rows <- execute_safe_query cfg drv indexes_sql
                 (Some [VStr table_name; VStr schema]) ;;
       ret (rows, []))
      (fun _ => ret ([], [IndexInfoFailed])).

Definition get_table_constraints (table_name schema : string)
  : M drv (list dict * list notice) :=
  allowed <- _is_schema_allowed cfg drv schema ;;
  if negb allowed then raise (schema_denied schema)
  else
    try_except
      (rows <- execute_safe_query cfg drv constraints_sql
                 (Some [VStr table_name; VStr schema]) ;;
       ret (rows, []))
      (fun _ => ret ([], [ConstraintInfoFailed])).

(** [result[0]['test_connection'] == 1], a [KeyError] when the first row
    has no such key.  Of the values of the model (None, integers, text)
    only the integer 1 equals 1. *)
Definition first_is_one (result : list dict) : M drv bool :=
  match result with
  | [] => ret false                       (* [len(result) > 0] fails first *)
  | row :: _ =>
      match Py.dict_get "test_connection" row with
      | Some (VInt 1) => ret true
      | Some _ => ret false
      | None => raise (OtherException "KeyError: 'test_connection'")
      end
  end.

Definition test_connection : M drv (bool * list notice) :=
  try_except
    (result <- execute_safe_query cfg drv connection_sql None ;;
     ok <- first_is_one result ;;
     ret (ok, []))
    (fun _ => ret (false, [ConnectionTestFailed])).

End Instance.

End Catalog.

(** ** [class DocumentGenerator] *)

Module DocumentGenerator.
Import Py.

Definition _get_field_value (data : dict) (field_name default : string)
  : string :=
  let value := get_or_none (lower field_name) data in
  if negb (is_none value) then (if truthy value then str value else default)
  else
    let value := get_or_none (Str.upper field_name) data in
    if negb (is_none value) then (if truthy value then str value else default)
    else
      let value := get_or_none field_name data in
      if negb (is_none value) then (if truthy value then str value else default)
      else default.

(** One step of the grouping loop of [generate_table_structure_doc]:
    open the list of [c_type] if there is none yet, then append. *)
Fixpoint add_constraint (c_type : string) (constraint : dict)
         (constraint_types : list (string * list dict))
  : list (string * list dict) :=
  match constraint_types with
  | [] => [(c_type, [constraint])]
  | (t, c_list) :: rest =>
      if String.eqb c_type t then (t, (c_list ++ [constraint])%list) :: rest
      else (t, c_list) :: add_constraint c_type constraint rest
  end.

(** The dictionary [constraint_types] the loop builds, in insertion
    order. *)
Definition group_constraints (constraints : list dict)
  : list (string * list dict) :=
  fold_left
    (fun constraint_types constraint =>
       add_constraint (_get_field_value constraint "constraint_type" "")
                      constraint constraint_types)
    constraints [].

(** The body of the loop of [generate_sql_create_statement]: the text of
    one column. *)
Definition column_definition (col : dict) : string :=
  let col_def := "    " ++ _get_field_value col "column_name" "" in
  let data_type := _get_field_value col "data_type" "" in
  let char_length := _get_field_value col "character_maximum_length" "" in
  let num_precision := _get_field_value col "numeric_precision" "" in
  let num_scale := _get_field_value col "numeric_scale" "" in
  let data_type :=
    if negb (Str.is_empty char_length)
    then data_type ++ "(" ++ char_length ++ ")"
    else if negb (Str.is_empty num_precision) && negb (Str.is_empty num_scale)
    then data_type ++ "(" ++ num_precision ++ "," ++ num_scale ++ ")"
    else data_type in
  let col_def := col_def ++ " " ++ data_type in
  let col_def :=
    if String.eqb (_get_field_value col "is_nullable" "") "NO"
    then col_def ++ " NOT NULL" else col_def in
  let default_val := _get_field_value col "column_default" "" in
  let col_def :=
    if negb (Str.is_empty default_val)
    then col_def ++ " DEFAULT " ++ default_val else col_def in
  let comment := _get_field_value col "column_comment" "" in
  let col_def :=
    if negb (Str.is_empty comment)
    then col_def ++ " -- " ++ comment else col_def in
  col_def.

(** [timestamp] is [self.timestamp], fixed when the generator is made. *)
Definition generate_sql_create_statement (timestamp table_name : string)
           (structure : list dict) : string :=
  let sql := "-- 表结构参考SQL (仅供参考，不可执行)" ++ newline in
  let sql := sql ++ "-- 表名: " ++ table_name ++ newline in
  let sql := sql ++ "-- 生成时间: " ++ timestamp ++ newline in
  let sql := sql ++ "-- 数据库: 达梦数据库" ++ newline ++ newline in
  let sql := sql ++ "CREATE TABLE " ++ table_name ++ " (" ++ newline in
  let columns := map column_definition structure in
  let sql := sql ++ join ("," ++ newline) columns in
  let sql := sql ++ newline ++ ");" ++ newline ++ newline in
  let sql := sql ++ "-- 注意: 此SQL仅为结构参考，实际建表请根据业务需求调整" ++ newline in
  sql.

End DocumentGenerator.

(** ** [main.py]: the preprocessing of rows for the generator *)

Module Main.
Import Py.

(** The inner loop of [normalize_data]: every binding is kept under its
    own key and repeated under the lower-case form of the key. *)
Definition normalize_item (item : dict) : dict :=
  fold_left
    (fun normalized_item kv =>
       dict_set (lower (fst kv)) (snd kv)
                (dict_set (fst kv) (snd kv) normalized_item))
    item [].

Definition normalize_data (data_list : list dict) : list dict :=
  map normalize_item data_list.

End Main.

(** ** Further vocabulary *)

Module Spec2.
Import SQLValidator DamengDatabase Exec Spec.

(** The text after the first word: nothing, or something that starts
    with white space. *)
Definition starts_blank (tail : string) : Prop :=
  match Str.first tail with
  | Some c => Char.isspace c = true
  | None => True
  end.

(** *** Traces *)

Definition session_sql : string := "SET SESSION AUTOCOMMIT = 0".

Definition is_log (e : event) : Prop :=
  match e with Log _ _ => True | _ => False end.

(** What may happen between the opening and the closing of a connection
    that serves the statement [sql] with [params]: log lines, fetches,
    commits, the session statement and the statement itself. *)
Definition session_event (sql : string) (params : option (list value))
           (e : event) : Prop :=
  match e with
  | Connect | Close => False
  | Execute s p => (s = session_sql /\ p = None) \/ (s = sql /\ p = params)
  | _ => True
  end.

(** Every event a computation adds to the trace satisfies [P]. *)
Definition emits {drv : Driver} {A : Type} (P : event -> Prop) (m : M drv A)
  : Prop :=
  forall w, exists evs,
    wtrace (fst (m w)) = (wtrace w ++ evs)%list /\ Forall P evs.

(** The events of one call of a computation. *)
Definition events_of {drv : Driver} {A : Type} (m : M drv A) (w : world drv)
           (evs : list event) : Prop :=
  wtrace (fst (m w)) = (wtrace w ++ evs)%list.

(** How Python prints a list of plain names (names without quotes or
    characters that need escaping). *)
Definition sample_display (names : list string) : string :=
  "[" ++ String.concat ", " (map (fun n => "'" ++ n ++ "'") names) ++ "]".

(** One round of the loop of [normalize_data]. *)
Definition normalize_step (n : dict) (kv : string * value) : dict :=
  dict_set (Py.lower (fst kv)) (snd kv) (dict_set (fst kv) (snd kv) n).

(** *** Grouping constraints *)

(** The type the generator reads off a constraint row. *)
Definition constraint_type_of (c : dict) : string :=
  DocumentGenerator._get_field_value c "constraint_type" "".

Definition of_type (t : string) (c : dict) : bool :=
  String.eqb (constraint_type_of c) t.

(** The elements of [l] that are not in [seen], each once, in the order
    of their first occurrence. *)
Fixpoint firsts (seen : list string) (l : list string) : list string :=
  match l with
  | [] => []
  | x :: l' =>
      if Str.mem x seen then firsts seen l' else x :: firsts (x :: seen) l'
  end.

(** *** The words the phrase scan looks for *)

(** The first words of the seven phrase patterns. *)
Definition scan_words : list string :=
  ["DROP"; "TRUNCATE"; "DELETE"; "INSERT"; "UPDATE"; "CREATE"; "ALTER"].

(** A word as a run of literal tokens. *)
Definition lits (w : string) : Re.regex :=
  map Re.Lit (list_ascii_of_string w).

(** *** A query that the driver answers *)

(** What [execute_query] logs before it opens the connection. *)
Definition prologue_events (cfg : Config) : list event :=
  if enable_query_log cfg then [Log INFO MsgExecSql] else [].

(** What [get_connection] does between connecting and yielding, when
    nothing fails. *)
Definition setup_events (cfg : Config) : list event :=
  ((if Str.is_empty (database cfg) then [] else [Log INFO MsgDbInstance])
   ++ (if is_readonly_mode cfg
       then [Execute session_sql None; Log INFO MsgReadonlySet] else [])
   ++ [Commit; Log INFO MsgConnected])%list.

(** The driver answers every call [execute_query] makes for a query,
    starting in state [d0]: it connects, accepts the session statement
    (sent in ReadOnly mode only) and the commit of the set-up, executes
    the statement, and delivers [rows], which leaves it in state [d]. *)
Definition answers_query (cfg : Config) (drv : Driver) (sql : string)
           (params : option (list value)) (d0 d : db drv)
           (rows : list (list value)) : Prop :=
  exists d1 d2 d3 d4,
    dm_connect drv d0 = (d1, Ok tt) /\
    (if is_readonly_mode cfg
     then dm_execute drv session_sql None d1 = (d2, Ok tt)
     else d2 = d1) /\
    dm_commit drv d2 = (d3, Ok tt) /\
    dm_execute drv sql params d3 = (d4, Ok tt) /\
    dm_fetchall drv d4 = (d, Ok rows).

(** *** Letter case beyond ASCII *)



End Spec2.

(** * Properties *)

(** ** Characters and the string methods *)

Module StrFacts.

Ltac by_cases_on c :=
  destruct c as [[] [] [] [] [] [] [] []]; vm_compute; try reflexivity;
  try discriminate; auto.

Lemma isspace_upper (c : ascii) :
  Char.isspace (Char.upper c) = Char.isspace c.
Proof. by_cases_on c. Qed.

Lemma upper_idem (c : ascii) : Char.upper (Char.upper c) = Char.upper c.
Proof. by_cases_on c. Qed.

Lemma append_nil_r (s : string) : s ++ "" = s.
Proof. induction s; simpl; congruence. Qed.

Lemma append_assoc (a b c : string) : (a ++ b) ++ c = a ++ b ++ c.
Proof. induction a; simpl; congruence. Qed.

Lemma upper_app (a b : string) :
  Str.upper (a ++ b) = Str.upper a ++ Str.upper b.
Proof. induction a; simpl; congruence. Qed.

Lemma all_app p (a b : string) :
  Str.all p (a ++ b) = Str.all p a && Str.all p b.
Proof.
  induction a as [|c a IH]; simpl; [reflexivity|].
  rewrite IH. now rewrite andb_assoc.
Qed.

Lemma all_space_upper (ws : string) :
  Str.all Char.isspace (Str.upper ws) = Str.all Char.isspace ws.
Proof.
  induction ws as [|c ws IH]; simpl; [reflexivity|].
  now rewrite isspace_upper, IH.
Qed.

Lemma lstrip_spaces_l (ws s : string) :
  Str.all Char.isspace ws = true -> Str.lstrip (ws ++ s) = Str.lstrip s.
Proof.
  induction ws as [|c ws IH]; simpl; [reflexivity|].
  intros H. apply andb_prop in H as [Hc Hws]. rewrite Hc. auto.
Qed.





Lemma mem_In (x : string) (S : list string) :
  Str.mem x S = true <-> In x S.
Proof.
  unfold Str.mem. rewrite existsb_exists. split.
  - intros (y & Hy & E). apply String.eqb_eq in E. now subst.
  - intros H. exists x. split; [assumption | apply String.eqb_refl].
Qed.

Lemma prefix_app (n h : string) :
  String.prefix n h = true <-> exists post, h = n ++ post.
Proof.
  revert h. induction n as [|a n IH]; intros h; simpl.
  - split; [intros _; now exists h | intros _; now destruct h].
  - destruct h as [|b h]; simpl;
      [split; [discriminate | intros [? ?]; discriminate]|].
    destruct (ascii_dec a b) as [->|Hab].
    + split.
      * intros H. apply IH in H as [post E]. exists post. congruence.
      * intros [post E]. apply IH. exists post. congruence.
    + split; [discriminate | intros [post E]; congruence].
Qed.

Lemma contains_cons (n : string) (c : ascii) (h : string) :
  Str.contains n (String c h)
  = String.prefix n (String c h) || Str.contains n h.
Proof. reflexivity. Qed.

(** [needle in hay] is the substring relation. *)
Lemma contains_spec (n h : string) :
  Str.contains n h = true <-> exists pre post, h = pre ++ n ++ post.
Proof.
  induction h as [|c h IH].
  - change (Str.contains n "") with (String.prefix n "" || false).
    rewrite orb_false_r. split.
    + intros H. apply prefix_app in H as [post E]. now exists "", post.
    + intros (pre & post & E). apply prefix_app.
      destruct pre; [now exists post | discriminate].
  - rewrite contains_cons, orb_true_iff. split.
    + intros [H | H].
      * apply prefix_app in H as [post E]. now exists "", post.
      * apply IH in H as (pre & post & E).
        exists (String c pre), post. simpl. congruence.
    + intros (pre & post & E). destruct pre as [|c' pre]; simpl in E.
      * left. apply prefix_app. now exists post.
      * right. apply IH. exists pre, post. congruence.
Qed.

End StrFacts.

(** ** What the matcher decides *)

Module ReFacts.
Import Re.

Lemma plus_loop_spec p (k : option ascii -> string -> bool) (s : string) :
  plus_loop p k s = true <->
  exists c w rest,
    s = String c w ++ rest /\ p c = true /\ Str.all p w = true /\
    k (Str.last (String c w)) rest = true.
Proof.
  induction s as [|a s IH]; simpl.
  - split; [discriminate | intros (c & w & rest & E & _); discriminate].
  - rewrite andb_true_iff, orb_true_iff. split.
    + intros [Ha [H | H]].
      * apply IH in H as (c & w & rest & E & Hc & Hw & Hk).
        exists a, (String c w), rest. subst s. repeat split; auto.
        simpl. now rewrite Hc, Hw.
      * exists a, "", s. repeat split; auto.
    + intros (c & w & rest & E & Hc & Hw & Hk).
      injection E as <- ->. split; [assumption|].
      destruct w as [|c' w].
      * right. exact Hk.
      * left. apply IH. simpl in Hw. apply andb_prop in Hw as [Hc' Hw].
        exists c', w, rest. repeat split; auto.
Qed.

Lemma match_here_spec (r : regex) :
  forall prev s,
    match_here r prev s = true <->
    exists m post, s = m ++ post /\ denotes r prev m post.
Proof.
  induction r as [|t r IH]; intros prev s.
  - simpl. split; [intros _ | reflexivity].
    exists "", s. split; [reflexivity | constructor].
  - destruct t as [c | | k]; simpl.
    + destruct s as [|a s].
      * split; [discriminate|].
        intros (m & post & E & D). inversion D; subst. discriminate.
      * rewrite andb_true_iff, Ascii.eqb_eq, IH. split.
        -- intros [-> (m & post & -> & D)].
           exists (String c m), post. split; [reflexivity | now constructor].
        -- intros (m & post & E & D). inversion D; subst.
           injection E as -> ->. split; [reflexivity | eauto].
    + rewrite andb_true_iff, IH. split.
      * intros [B (m & post & -> & D)]. exists m, post.
        split; [reflexivity | now constructor].
      * intros (m & post & -> & D). inversion D; subst. eauto.
    + rewrite plus_loop_spec. split.
      * intros (c & w & rest & -> & Hc & Hw & Hk).
        apply IH in Hk as (m & post & -> & D).
        exists (String c w ++ m), post. split.
        -- simpl. now rewrite StrFacts.append_assoc.
        -- now constructor.
      * intros (m & post & -> & D). inversion D; subst.
        exists c, w, (m0 ++ post). split.
        -- simpl. now rewrite StrFacts.append_assoc.
        -- repeat split; auto. apply IH. eauto.
Qed.

Lemma last_cons (a : ascii) (s : string) :
  Str.last (String a s) = before (Some a) s.
Proof.
  unfold before. revert a. induction s as [|b s IH]; intros a.
  - reflexivity.
  - change (Str.last (String a (String b s))) with (Str.last (String b s)).
    rewrite (IH b). now destruct (Str.last s).
Qed.

Lemma before_cons prev a pre :
  before prev (String a pre) = before (Some a) pre.
Proof.
  unfold before at 1. rewrite last_cons.
  unfold before. now destruct (Str.last pre).
Qed.

Lemma search_from_spec (r : regex) :
  forall s prev,
    search_from r prev s = true <->
    exists pre m post,
      s = pre ++ m ++ post /\ denotes r (before prev pre) m post.
Proof.
  induction s as [|a s IH]; intros prev; simpl.
  - rewrite orb_false_r, match_here_spec. split.
    + intros (m & post & E & D). now exists "", m, post.
    + intros (pre & m & post & E & D).
      destruct pre; [|discriminate]. exists m, post. split; [exact E | exact D].
  - rewrite orb_true_iff, match_here_spec, IH. split.
    + intros [(m & post & E & D) | (pre & m & post & E & D)].
      * now exists "", m, post.
      * exists (String a pre), m, post. split.
        -- simpl. congruence.
        -- now rewrite before_cons.
    + intros (pre & m & post & E & D). destruct pre as [|a' pre].
      * left. exists m, post. split; [exact E | exact D].
      * right. simpl in E. injection E as <- ->.
        rewrite before_cons in D. eauto.
Qed.

(** [re.search] finds a match exactly when the pattern occurs. *)
Lemma search_spec (pattern s : string) :
  search pattern s = true <-> occurs pattern s.
Proof.
  unfold search, occurs. destruct (compile pattern) as [r|].
  - rewrite search_from_spec. split.
    + intros (pre & m & post & E & D). exists r. split; [reflexivity|].
      exists pre, m, post. split; [assumption|].
      unfold before in D. now destruct (Str.last pre).
    + intros (r' & [= <-] & pre & m & post & E & D).
      exists pre, m, post. split; [assumption|].
      unfold before. now destruct (Str.last pre).
  - split; [discriminate | intros (r & E & _); discriminate].
Qed.

End ReFacts.

(** ** The policy engine *)

Module Policy.
Import SQLValidator Re Spec.
Import StrFacts ReFacts.

Lemma split_acc_head (s cur : string) :
  hd "" (Str.split_acc cur s) =
  if Str.is_empty cur then take_while nonspace (Str.lstrip s)
  else cur ++ take_while nonspace s.
Proof.
  revert cur. induction s as [|c s IH]; intros cur.
  - destruct cur; simpl; [reflexivity | now rewrite append_nil_r].
  - cbn [Str.split_acc Str.lstrip take_while]. unfold nonspace at 2.
    destruct (Char.isspace c) eqn:Hc; cbn [negb].
    + destruct cur; cbn [Str.is_empty hd].
      * apply (IH "").
      * now rewrite append_nil_r.
    + rewrite IH. cbn [take_while].
      replace (nonspace c) with true by (unfold nonspace; now rewrite Hc).
      destruct cur; cbn [Str.is_empty String.append]; [reflexivity|].
      now rewrite append_assoc.
Qed.

(** The keyword the validator extracts is the first white-space
    delimited token: the longest blank-free prefix of the text once
    its leading blanks are gone. *)
Lemma first_keyword_token (s : string) :
  _extract_first_keyword s = take_while nonspace (Str.lstrip s).
Proof.
  unfold _extract_first_keyword, Str.split.
  change (take_while nonspace (Str.lstrip s))
    with (if Str.is_empty "" then take_while nonspace (Str.lstrip s)
          else "" ++ take_while nonspace s).
  rewrite <- (split_acc_head s "").
  now destruct (Str.split_acc "" s).
Qed.

Lemma none_hits_spec {A} (hit : A -> bool) (xs : list A) :
  none_hits hit xs = true <-> forall x, In x xs -> hit x = false.
Proof.
  unfold none_hits. rewrite negb_true_iff. split.
  - intros H x Hx. destruct (hit x) eqn:E; [|reflexivity].
    assert (existsb hit xs = true) by (apply existsb_exists; eauto).
    congruence.
  - intros H. destruct (existsb hit xs) eqn:E; [|reflexivity].
    apply existsb_exists in E as (x & Hx & Hhit).
    rewrite (H x Hx) in Hhit. discriminate.
Qed.

Lemma no_pattern_spec (ps : list string) (s : string) :
  none_hits (fun pattern => Re.search pattern s) ps = true <->
  forall p, In p ps -> ~ occurs p s.
Proof.
  rewrite none_hits_spec. split; intros H p Hp.
  - rewrite <- search_spec. now rewrite (H p Hp).
  - destruct (Re.search p s) eqn:E; [|reflexivity].
    apply search_spec in E. now destruct (H p Hp).
Qed.

Lemma no_substring_spec (ks : list string) (s : string) :
  none_hits (fun k => Str.contains k s) ks = true <->
  forall k, In k ks -> ~ substring k s.
Proof.
  rewrite none_hits_spec. unfold substring. split; intros H k Hk.
  - rewrite <- contains_spec. now rewrite (H k Hk).
  - destruct (Str.contains k s) eqn:E; [|reflexivity].
    apply contains_spec in E. now destruct (H k Hk).
Qed.

(** What an occurrence of the first phrase pattern amounts to: the words
    DROP and TABLE, one or more blanks between them, no word character
    just before or just after. *)
Lemma occurs_drop_table (s : string) :
  occurs "\bDROP\s+TABLE\b" s <->
  exists pre ws post,
    s = pre ++ "DROP" ++ ws ++ "TABLE" ++ post /\
    ws <> "" /\ blank ws /\
    wordp (Str.last pre) = false /\ wordp (Str.first post) = false.
Proof.
  unfold occurs. split.
  - intros (r & Hr & pre & m & post & -> & D).
    vm_compute in Hr. injection Hr as <-.
    repeat match goal with
           | H : denotes (_ :: _) _ _ _ |- _ => inversion H; subst; clear H
           | H : denotes [] _ _ _ |- _ => inversion H; subst; clear H
           end.
    exists pre, (String c w), post. split; [|split; [discriminate|split]].
    + simpl. now rewrite !append_assoc.
    + unfold blank. simpl in *.
      match goal with H : Char.isspace c = true |- _ => rewrite H end.
      assumption.
    + split.
      * match goal with
        | H : at_boundary (Str.last pre) _ = true |- _ =>
            unfold at_boundary in H; simpl in H;
            destruct (wordp (Str.last pre)); [discriminate H | reflexivity]
        end.
      * match goal with
        | H : at_boundary (Some _) (Str.first ("" ++ post)) = true |- _ =>
            unfold at_boundary in H; simpl in H;
            destruct (wordp (Str.first post)); [discriminate H | reflexivity]
        end.
  - intros (pre & ws & post & -> & Hne & Hws & Hpre & Hpost).
    destruct ws as [|c w]; [now destruct Hne|].
    unfold blank in Hws. simpl in Hws. apply andb_prop in Hws as [Hc Hw].
    eexists. split; [vm_compute; reflexivity|].
    exists pre, ("DROP" ++ String c w ++ "TABLE"), post. split.
    + simpl. now rewrite !append_assoc.
    + constructor; [unfold at_boundary; rewrite Hpre; reflexivity|].
      do 4 apply den_lit.
      apply den_plus; [exact Hc | exact Hw |].
      do 5 apply den_lit.
      apply den_bound; [|apply den_nil].
      unfold at_boundary. simpl. now rewrite Hpost.
Qed.

(** The two verdict functions, in terms of membership and occurrence. *)
Lemma validate_readonly_spec (kw s : string) :
  _validate_readonly kw s = true <->
  In kw READONLY_OPERATIONS /\
  (kw = "SELECT" -> forall p, In p dangerous_patterns -> ~ occurs p s) /\
  (kw <> "SELECT" ->
   forall k, In k (union WRITE_OPERATIONS DANGEROUS_OPERATIONS) ->
             ~ substring k s).
Proof.
  unfold _validate_readonly.
  destruct (Str.mem kw READONLY_OPERATIONS) eqn:Hm; cbn [negb].
  - apply mem_In in Hm. destruct (String.eqb_spec kw "SELECT") as [E|E].
    + rewrite no_pattern_spec. split.
      * intros H. split; [assumption|].
        split; [intros _; exact H | intros NE; now destruct NE].
      * intros (_ & H & _). auto.
    + rewrite no_substring_spec. split.
      * intros H. split; [assumption|].
        split; [intros EQ; now destruct E | intros _; exact H].
      * intros (_ & _ & H). auto.
  - split; [discriminate|]. intros (H & _). apply mem_In in H. congruence.
Qed.

Lemma validate_limited_write_spec (kw s : string) :
  _validate_limited_write kw s = true <->
  In kw (union READONLY_OPERATIONS WRITE_OPERATIONS) /\
  forall k, In k DANGEROUS_OPERATIONS -> ~ substring k s.
Proof.
  unfold _validate_limited_write.
  destruct (Str.mem kw (union READONLY_OPERATIONS WRITE_OPERATIONS)) eqn:Hm;
    cbn [negb].
  - apply mem_In in Hm. rewrite no_substring_spec. tauto.
  - split; [discriminate|]. intros (H & _). apply mem_In in H. congruence.
Qed.

(** *** ReadOnly mode *)

(** C1, as stated, fails: [EXPLAIN SELECT created_at FROM t] has a
    read-only leading keyword and no write or dangerous keyword as a
    token (CREATED_AT is one word), yet ReadOnly mode denies it, because
    CREATE occurs inside CREATED_AT. *)
Lemma readonly_token_scan_refuted :
  let sql := "EXPLAIN SELECT created_at FROM t" in
  ~ (validate_sql sql READONLY = true <->
     readonly_allows_by_tokens sql = true).
Proof.
  intros sql [_ H].
  assert (D : validate_sql sql READONLY = false) by reflexivity.
  rewrite H in D; [discriminate | reflexivity].
Qed.

(** C1 (amended): ReadOnly mode allows a statement exactly when its
    leading keyword is in the read-only set and, for SELECT, none of the
    seven phrase patterns occurs in the normalized text, while for the
    other read-only keywords no write or dangerous keyword occurs in the
    normalized text as a substring. *)
Theorem readonly_allows_iff (sql : string) :
  validate_sql sql READONLY = true <->
  In (keyword sql) READONLY_OPERATIONS /\
  (keyword sql = "SELECT" ->
   forall p, In p dangerous_patterns -> ~ occurs p (normalized sql)) /\
  (keyword sql <> "SELECT" ->
   forall k, In k (union WRITE_OPERATIONS DANGEROUS_OPERATIONS) ->
             ~ substring k (normalized sql)).
Proof. apply validate_readonly_spec. Qed.

(** *** The three modes compared *)

(** C2, as stated, fails: a SELECT that compares a column with the
    literal 'DELETE' passes ReadOnly mode (no phrase pattern occurs) and
    is denied in LimitedWrite mode. *)
Lemma readonly_not_below_limited_write :
  let sql := "SELECT * FROM logs WHERE action = 'DELETE'" in
  ~ (validate_sql sql READONLY = true ->
     validate_sql sql LIMITED_WRITE = true /\
     validate_sql sql FULL_ACCESS = true).
Proof.
  intros sql H. destruct (H eq_refl) as [D _].
  assert (E : validate_sql sql LIMITED_WRITE = false) by reflexivity.
  congruence.
Qed.

(** C2 (amended): a statement that ReadOnly mode allows is allowed in
    FullAccess mode; LimitedWrite mode allows it exactly when no
    dangerous keyword occurs in its normalized text as a substring, which
    is always so when its leading keyword is not SELECT. *)
Theorem readonly_allowed_wider_modes (sql : string) :
  validate_sql sql READONLY = true ->
  validate_sql sql FULL_ACCESS = true /\
  (validate_sql sql LIMITED_WRITE = true <->
   forall k, In k DANGEROUS_OPERATIONS -> ~ substring k (normalized sql)) /\
  (keyword sql <> "SELECT" -> validate_sql sql LIMITED_WRITE = true).
Proof.
  intros H. apply validate_readonly_spec in H as (Hkw & Hsel & Hoth).
  fold (keyword sql) in Hkw, Hsel, Hoth.
  fold (normalized sql) in Hsel, Hoth.
  assert (Hin : In (keyword sql) (union READONLY_OPERATIONS WRITE_OPERATIONS))
    by (apply in_or_app; now left).
  split; [reflexivity|]. split.
  - split.
    + intros HL. now apply validate_limited_write_spec in HL.
    + intros Hd. apply validate_limited_write_spec. now split.
  - intros NE. apply validate_limited_write_spec. split; [assumption|].
    intros k Hk. apply (Hoth NE). apply in_or_app. now right.
Qed.

Lemma readonly_allowed_wider_modes_witness :
  validate_sql "show tables" READONLY = true /\
  validate_sql "show tables" FULL_ACCESS = true /\
  (validate_sql "show tables" LIMITED_WRITE = true <->
   forall k, In k DANGEROUS_OPERATIONS ->
             ~ substring k (normalized "show tables")) /\
  (keyword "show tables" <> "SELECT" ->
   validate_sql "show tables" LIMITED_WRITE = true).
Proof.
  split; [reflexivity|].
  apply (readonly_allowed_wider_modes "show tables"). reflexivity.
Defined.

(** *** LimitedWrite mode *)

(** C3, as stated, fails: this UPDATE names its table with a schema
    prefix, so not even the UPDATE ... SET phrase occurs in it, and none
    of the other six does; LimitedWrite mode denies it because the
    literal 'DROP' contains a dangerous keyword. *)
Lemma limited_write_denies_pattern_free_update :
  let sql := "UPDATE app.logs SET action = 'DROP'" in
  ~ (In (keyword sql) WRITE_OPERATIONS ->
     (forall p, In p dangerous_patterns -> ~ occurs p (normalized sql)) ->
     validate_sql sql LIMITED_WRITE = true).
Proof.
  intros sql H.
  assert (E : validate_sql sql LIMITED_WRITE = false) by reflexivity.
  rewrite H in E; [discriminate | right; now left |].
  apply no_pattern_spec. reflexivity.
Qed.

(** C3 (amended): a statement whose leading keyword is INSERT or UPDATE
    and whose normalized text contains none of the dangerous keywords
    as a substring is allowed in LimitedWrite mode. *)
Theorem limited_write_allows_writes (sql : string) :
  In (keyword sql) WRITE_OPERATIONS ->
  (forall k, In k DANGEROUS_OPERATIONS -> ~ substring k (normalized sql)) ->
  validate_sql sql LIMITED_WRITE = true.
Proof.
  intros Hkw Hd. apply validate_limited_write_spec. split; [|exact Hd].
  apply in_or_app. now right.
Qed.

Lemma limited_write_allows_writes_witness :
  let sql := "insert into t (id) values (1)" in
  In (keyword sql) WRITE_OPERATIONS /\
  (forall k, In k DANGEROUS_OPERATIONS -> ~ substring k (normalized sql)) /\
  validate_sql sql LIMITED_WRITE = true.
Proof.
  intros sql.
  assert (Hkw : In (keyword sql) WRITE_OPERATIONS) by (left; reflexivity).
  assert (Hd : forall k, In k DANGEROUS_OPERATIONS ->
                         ~ substring k (normalized sql))
    by (apply no_substring_spec; reflexivity).
  split; [exact Hkw|]. split; [exact Hd|].
  exact (limited_write_allows_writes sql Hkw Hd).
Defined.

(** *** FullAccess mode *)

(** C4: FullAccess mode allows every statement, the empty and the blank
    ones included; the verdict does not look at the text. *)
Theorem full_access_allows_all (sql : string) :
  validate_sql sql FULL_ACCESS = true.
Proof. reflexivity. Qed.

(** *** Denial messages *)

(** Whatever made ReadOnly mode deny a SELECT, the message files it
    under the operations the mode does not support. *)
Lemma select_message_readonly (sql : string) :
  keyword sql = "SELECT" ->
  get_error_message sql READONLY = "只读模式下不支持的操作: SELECT".
Proof.
  unfold get_error_message. fold (normalized sql). fold (keyword sql).
  intros ->. reflexivity.
Qed.

(** C5: the injected statement of the specification is denied in
    ReadOnly mode by the phrase scan (its keyword SELECT is a read-only
    operation and DROP TABLE occurs in it), and the message names SELECT
    as an unsupported operation. *)
Theorem select_denial_reported_as_unsupported :
  let sql := "SELECT * FROM t WHERE x = 1; DROP TABLE t;" in
  validate_sql sql READONLY = false /\
  In (keyword sql) READONLY_OPERATIONS /\
  Re.search "\bDROP\s+TABLE\b" (normalized sql) = true /\
  get_error_message sql READONLY = "只读模式下不支持的操作: SELECT".
Proof.
  intros sql. split; [reflexivity|]. split; [now left|].
  split; reflexivity.
Qed.

(** *** Letter case and surrounding blanks *)








End Policy.

(** ** The query executor and the schema resolver *)

Module Executor.
Import SQLValidator DamengDatabase Exec Spec Spec2.
Import StrFacts Policy.

(** *** The normalized text starts with its keyword *)

Lemma lstrip_head (s : string) :
  Str.lstrip s = "" \/
  exists c t, Str.lstrip s = String c t /\ Char.isspace c = false.
Proof.
  induction s as [|c s IH]; [now left|].
  cbn [Str.lstrip]. destruct (Char.isspace c) eqn:Hc; [exact IH|].
  right. now exists c, s.
Qed.

Lemma lstrip_strip (s : string) : Str.lstrip (Str.strip s) = Str.strip s.
Proof.
  unfold Str.strip. destruct (lstrip_head s) as [-> | (c & t & -> & Hc)].
  - reflexivity.
  - cbn [Str.rstrip]. rewrite Hc. cbn [andb Str.lstrip]. now rewrite Hc.
Qed.

Lemma take_while_prefix p (s : string) :
  String.prefix (take_while p s) s = true.
Proof.
  induction s as [|c s IH]; [reflexivity|].
  cbn [take_while]. destruct (p c); [|reflexivity].
  cbn [String.prefix]. now destruct (ascii_dec c c).
Qed.

Lemma keyword_prefix (sql : string) :
  Str.startswith (normalized sql) (keyword sql) = true.
Proof.
  unfold Str.startswith, keyword. rewrite first_keyword_token.
  unfold normalized. rewrite lstrip_strip. apply take_while_prefix.
Qed.

Lemma keyword_selects_prefix (sql : string) (ps : list string) :
  In (keyword sql) ps -> Str.startswith_any (normalized sql) ps = true.
Proof.
  intros H. unfold Str.startswith_any. apply existsb_exists.
  exists (keyword sql). split; [assumption | apply keyword_prefix].
Qed.

(** *** The two ways a permitted statement can run *)

Section Runs.
Variable cfg : Config.
Variable drv : Driver.

Lemma limit_rows_run (dicts : list dict) (w : world drv) :
  limit_rows cfg drv dicts w =
  if (max_result_rows cfg <? Z.of_nat (List.length dicts))%Z
  then (mkWorld (wdb w)
          (wtrace w ++ [Log WARNING (MsgTruncated (max_result_rows cfg))]),
        Ok (slice_to (max_result_rows cfg) dicts))
  else (w, Ok dicts).
Proof.
  unfold limit_rows.
  now destruct (max_result_rows cfg <? Z.of_nat (List.length dicts))%Z.
Qed.

(** The row-limit step always returns, and what it returns is an
    initial segment of what it was given. *)
Lemma limit_rows_total (dicts : list dict) (w : world drv) :
  exists out k, snd (limit_rows cfg drv dicts w) = Ok out /\
                out = firstn k dicts.
Proof.
  rewrite limit_rows_run.
  destruct (max_result_rows cfg <? Z.of_nat (List.length dicts))%Z.
  - unfold slice_to. destruct (0 <=? max_result_rows cfg)%Z;
      cbn [snd]; eexists _, _; split; reflexivity.
  - exists dicts, (List.length dicts). split; [reflexivity|].
    now rewrite firstn_all.
Qed.

(** What the query branch does, step by step. *)
Lemma fetch_results_run (w : world drv) :
  fetch_results cfg drv w =
  match dm_fetchall drv (wdb w) with
  | (d, Raise e) => (mkWorld d (wtrace w ++ [FetchAll]), Raise e)
  | (d, Ok rows) =>
      let dicts := map (row_dict (column_names (dm_description drv d))) rows in
      let limited :=
        (max_result_rows cfg <? Z.of_nat (List.length dicts))%Z in
      let out :=
        if limited then slice_to (max_result_rows cfg) dicts else dicts in
      let notice :=
        if limited then [Log WARNING (MsgTruncated (max_result_rows cfg))]
        else [] in
      (mkWorld d
         (wtrace w ++ [FetchAll] ++ notice
            ++ [Log INFO (MsgReturned (List.length out))]),
       Ok out)
  end.
Proof.
  unfold fetch_results, bind, call, read, log, emit, ret.
  destruct (dm_fetchall drv (wdb w)) as [d [rows | e]]; [|reflexivity].
  cbn [wdb wtrace]. rewrite limit_rows_run. cbn zeta.
  destruct (max_result_rows cfg <? _)%Z; cbn [wdb wtrace];
    now rewrite <- ?app_assoc.
Qed.

End Runs.

(** *** Queries and updates *)

(** C6, as stated, fails: ANALYZE is a read-only operation for the
    validator, and ReadOnly mode permits [ANALYZE TABLE t], but the
    executor does not fetch for it: it commits and returns the summary
    record. *)
Lemma analyze_not_run_as_query :
  let sql := "ANALYZE TABLE t" in
  let cfg := sample_config READONLY AllSchemas 1000 in
  ~ (validate_sql sql (security_mode cfg) = true ->
     In (keyword sql) READONLY_OPERATIONS ->
     runs_as_query cfg sample_driver sql None).
Proof.
  intros sql cfg H.
  assert (K : In (keyword sql) READONLY_OPERATIONS)
    by (do 5 right; left; reflexivity).
  specialize (H eq_refl K (mkWorld (0 : db sample_driver) [])).
  vm_compute in H. discriminate H.
Qed.

(** In every configuration that permits it, [ANALYZE TABLE t] runs as
    an update. *)
Lemma analyze_runs_as_update cfg drv params :
  validate_sql "ANALYZE TABLE t" (security_mode cfg) = true ->
  runs_as_update cfg drv "ANALYZE TABLE t" params.
Proof.
  intros H w. unfold execute_query. now rewrite H.
Qed.

(** C6 (amended): a permitted statement whose leading keyword is
    SELECT, WITH, SHOW, DESCRIBE or EXPLAIN runs as a query: after the
    statement is executed all rows are fetched and returned as
    column-keyed mappings, and nothing is committed on that branch. *)
Theorem query_keywords_run_as_query cfg drv sql params :
  validate_sql sql (security_mode cfg) = true ->
  In (keyword sql) query_prefixes ->
  runs_as_query cfg drv sql params /\
  forall w, exists d r rest,
    fetch_results cfg drv w = (mkWorld d (wtrace w ++ FetchAll :: rest), r) /\
    ~ In Commit rest /\
    match r with
    | Ok out =>
        exists rows k,
          snd (dm_fetchall drv (wdb w)) = Ok rows /\
          out = firstn k (map (row_dict (column_names (dm_description drv d)))
                              rows)
    | Raise e => snd (dm_fetchall drv (wdb w)) = Raise e
    end.
Proof.
  intros Hv Hk. split.
  - intros w. unfold execute_query, run_with. rewrite Hv. cbn [negb].
    change (Str.strip (Str.upper sql)) with (normalized sql).
    now rewrite (keyword_selects_prefix sql query_prefixes Hk).
  - intros w. rewrite fetch_results_run.
    destruct (dm_fetchall drv (wdb w)) as [d [rows | e]]; cbn zeta.
    + eexists d, _, _. split; [reflexivity|]. split.
      * intros HC. apply in_app_or in HC as [HC | [HC | []]];
          [|discriminate HC].
        destruct (max_result_rows cfg <? _)%Z;
          [destruct HC as [HC | []]; discriminate HC | destruct HC].
      * exists rows.
        destruct (max_result_rows cfg <? _)%Z eqn:E.
        -- unfold slice_to. destruct (0 <=? max_result_rows cfg)%Z;
             eexists; split; reflexivity.
        -- eexists. split; [reflexivity|]. symmetry. apply firstn_all.
    + exists d, (Raise e), []. repeat split; auto.
Qed.

Lemma query_keywords_run_as_query_witness :
  let cfg := sample_config READONLY AllSchemas 1000 in
  let sql := "  explain select id from t" in
  validate_sql sql (security_mode cfg) = true /\
  In (keyword sql) query_prefixes /\
  runs_as_query cfg sample_driver sql None.
Proof.
  intros cfg sql.
  assert (Hv : validate_sql sql (security_mode cfg) = true) by reflexivity.
  assert (Hk : In (keyword sql) query_prefixes)
    by (do 4 right; left; reflexivity).
  split; [exact Hv|]. split; [exact Hk|].
  exact (proj1 (query_keywords_run_as_query cfg sample_driver sql None Hv Hk)).
Defined.

(** *** The row limit *)

(** The query branch on rows already fetched. *)
Lemma fetch_results_limited cfg drv (w : world drv) d rows :
  (0 <= max_result_rows cfg)%Z ->
  dm_fetchall drv (wdb w) = (d, Ok rows) ->
  let N := max_result_rows cfg in
  let M := Z.of_nat (List.length rows) in
  let dicts := map (row_dict (column_names (dm_description drv d))) rows in
  exists out notice,
    fetch_results cfg drv w =
      (mkWorld d (wtrace w ++ [FetchAll] ++ notice
                    ++ [Log INFO (MsgReturned (List.length out))]),
       Ok out) /\
    ((N < M)%Z ->
       out = firstn (Z.to_nat N) dicts /\
       List.length out = Z.to_nat N /\
       notice = [Log WARNING (MsgTruncated N)]) /\
    ((M <= N)%Z -> out = dicts /\ notice = []).
Proof.
  intros HN Hf N M dicts. rewrite fetch_results_run, Hf. cbn zeta.
  fold dicts. fold N.
  assert (HM : Z.of_nat (List.length dicts) = M)
    by (unfold dicts, M; now rewrite length_map).
  rewrite HM. destruct (N <? M)%Z eqn:E.
  - apply Z.ltb_lt in E. eexists _, _. split; [reflexivity|]. split.
    + intros _. unfold slice_to.
      replace (0 <=? N)%Z with true by (symmetry; now apply Z.leb_le).
      repeat split. apply firstn_length_le. lia.
    + intros HMN. lia.
  - apply Z.ltb_ge in E. eexists _, _. split; [reflexivity|]. split.
    + intros HMN. lia.
    + intros _. split; reflexivity.
Qed.

Lemma call_ok {drv : Driver} {A} (ev : event)
      (op : db drv -> db drv * result A) (w : world drv) d a :
  op (wdb w) = (d, Ok a) ->
  call ev op w = (mkWorld d (wtrace w ++ [ev]), Ok a).
Proof. intros H. unfold call. now rewrite H. Qed.

Lemma bind_ok {drv : Driver} {A B} (m : M drv A) (k : A -> M drv B)
      (w w' : world drv) a :
  m w = (w', Ok a) -> bind m k w = k a w'.
Proof. intros H. unfold bind. now rewrite H. Qed.

(** A connection in which nothing fails: the body runs after the set-up
    and the connection is closed after the body. *)
Lemma get_connection_ok {A} cfg drv (body : M drv A) (w : world drv)
      d1 d2 d3 (wb : world drv) (a : A) :
  dm_connect drv (wdb w) = (d1, Ok tt) ->
  (if is_readonly_mode cfg
   then dm_execute drv session_sql None d1 = (d2, Ok tt)
   else d2 = d1) ->
  dm_commit drv d2 = (d3, Ok tt) ->
  body (mkWorld d3 (wtrace w ++ [Connect] ++ setup_events cfg)) = (wb, Ok a) ->
  get_connection cfg drv body w
  = (mkWorld (dm_close drv (wdb wb))
       (wtrace wb ++ [Close; Log INFO MsgClosed]), Ok a).
Proof.
  intros Hc Hs Hm Hb. unfold get_connection.
  rewrite (call_ok Connect (dm_connect drv) w d1 tt Hc).
  unfold try_finally, log_dm_error, try_except, setup_events in *.
  unfold session_sql in Hs, Hb.
  destruct (Str.is_empty (database cfg)), (is_readonly_mode cfg);
    unfold bind, call, log, emit, ret; cbn [wdb wtrace];
    try (rewrite Hs; cbn [wdb wtrace]); try subst d2; rewrite Hm;
    cbn [wdb wtrace];
    cbn [app] in Hb; rewrite <- ?app_assoc; cbn [app];
    rewrite <- ?app_assoc in Hb; cbn [app] in Hb;
    rewrite Hb; cbn [fst wdb wtrace]; now rewrite <- app_assoc.
Qed.

(** C7: when a permitted read query is answered with M rows and the
    configured limit is N, [execute_query] returns, without error, the
    first N row mappings in their order and logs the truncation warning
    if M > N, and returns all M row mappings and logs no warning if
    M <= N; the limit is applied after the fetch, to the rows already
    retrieved. *)
Theorem row_limit_truncates cfg drv sql params (w : world drv) d rows :
  validate_sql sql (security_mode cfg) = true ->
  In (keyword sql) query_prefixes ->
  (0 <= max_result_rows cfg)%Z ->
  answers_query cfg drv sql params (wdb w) d rows ->
  let N := max_result_rows cfg in
  let M := Z.of_nat (List.length rows) in
  let dicts := map (row_dict (column_names (dm_description drv d))) rows in
  exists out notice,
    execute_query cfg drv sql params w =
      (mkWorld (dm_close drv d)
         (wtrace w ++ prologue_events cfg ++ [Connect] ++ setup_events cfg
            ++ [Execute sql params; FetchAll] ++ notice
            ++ [Log INFO (MsgReturned (List.length out));
                Close; Log INFO MsgClosed]),
       Ok out) /\
    ((N < M)%Z ->
       out = firstn (Z.to_nat N) dicts /\
       List.length out = Z.to_nat N /\
       notice = [Log WARNING (MsgTruncated N)]) /\
    ((M <= N)%Z -> out = dicts /\ notice = []).
Proof.
  intros Hv Hk HN (d1 & d2 & d3 & d4 & Hc & Hs & Hm & He & Hf) N M dicts.
  set (t0 := (wtrace w ++ prologue_events cfg)%list).
  set (t3 := (t0 ++ [Connect] ++ setup_events cfg)%list).
  set (t4 := (t3 ++ [Execute sql params])%list).
  destruct (fetch_results_limited cfg drv (mkWorld d4 t4) d rows HN Hf)
    as (out & notice & Hrun & Hlt & Hge).
  cbn [wtrace] in Hrun.
  exists out, notice. split; [|split; assumption].
  assert (Hbody :
    log_dm_error drv MsgSqlFailed
      (call (Execute sql params) (dm_execute drv sql params) ;;
       fetch_results cfg drv) (mkWorld d3 t3)
    = (mkWorld d
         (t4 ++ [FetchAll] ++ notice
            ++ [Log INFO (MsgReturned (List.length out))]), Ok out)).
  { unfold log_dm_error, try_except.
    rewrite (bind_ok _ _ _ (mkWorld d4 t4) tt).
    - now rewrite Hrun.
    - now rewrite (call_ok _ _ _ d4 tt) by exact He. }
  assert (Hrunq :
    execute_query cfg drv sql params w
    = get_connection cfg drv
        (log_dm_error drv MsgSqlFailed
           (call (Execute sql params) (dm_execute drv sql params) ;;
            fetch_results cfg drv)) (mkWorld (wdb w) t0)).
  { unfold execute_query. rewrite Hv. cbn [negb].
    change (Str.strip (Str.upper sql)) with (normalized sql).
    rewrite (keyword_selects_prefix sql query_prefixes Hk).
    unfold t0, prologue_events. destruct (enable_query_log cfg).
    - reflexivity.
    - unfold bind at 1, ret at 1. rewrite app_nil_r. now destruct w. }
  rewrite Hrunq.
  rewrite (get_connection_ok cfg drv _ (mkWorld (wdb w) t0) d1 d2 d3 _ out
             Hc Hs Hm Hbody).
  cbn [wdb wtrace]. f_equal. f_equal.
  unfold t4, t3, t0. now rewrite <- !app_assoc.
Qed.


Lemma row_limit_truncates_witness :
  let cfg := sample_config READONLY AllSchemas 2 in
  let w := mkWorld (0 : db sample_driver) [] in
  let sql := "select id, username from all_users" in
  validate_sql sql (security_mode cfg) = true /\
  In (keyword sql) query_prefixes /\
  (0 <= max_result_rows cfg)%Z /\
  answers_query cfg sample_driver sql None (wdb w) 1%nat sample_rows /\
  exists out notice,
    execute_query cfg sample_driver sql None w =
      (mkWorld (1 : db sample_driver)
         (wtrace w ++ prologue_events cfg ++ [Connect] ++ setup_events cfg
            ++ [Execute sql None; FetchAll] ++ notice
            ++ [Log INFO (MsgReturned (List.length out));
                Close; Log INFO MsgClosed]),
       Ok out) /\
    out = [ [("ID", VInt 1); ("USERNAME", VStr "SYSDBA")];
            [("ID", VInt 2); ("USERNAME", VStr "APP")] ] /\
    notice = [Log WARNING (MsgTruncated 2)].
Proof.
  intros cfg w sql.
  assert (Hv : validate_sql sql (security_mode cfg) = true) by reflexivity.
  assert (Hk : In (keyword sql) query_prefixes) by (left; reflexivity).
  assert (HN : (0 <= max_result_rows cfg)%Z) by (vm_compute; discriminate).
  assert (Ha : answers_query cfg sample_driver sql None (wdb w) 1%nat
                 sample_rows).
  { exists 0%nat, 0%nat, 1%nat, 1%nat. repeat split. }
  split; [exact Hv|]. split; [exact Hk|]. split; [exact HN|].
  split; [exact Ha|].
  destruct (row_limit_truncates cfg sample_driver sql None w 1%nat
              sample_rows Hv Hk HN Ha) as (out & notice & Hrun & Hlt & _).
  destruct Hlt as (Hout & _ & Hnotice); [reflexivity|].
  exists out, notice. split; [exact Hrun|]. split; assumption.
Defined.

(** *** Schema visibility *)

(** The probe passes the forced read-only check, and the check of every
    configured mode. *)
Lemma probe_is_permitted (m : SecurityMode) :
  validate_sql test_sql READONLY = true /\ validate_sql test_sql m = true.
Proof. split; [reflexivity | now destruct m]. Qed.

(** C8: under the auto-discovery strategy the resolver never raises;
    it answers true exactly when the forced read-only probe returns at
    least one row, and false whenever the probe raises. *)
Theorem auto_discover_fails_closed cfg drv schema (w : world drv) :
  schema_visibility cfg = AutoDiscover ->
  let probe := execute_safe_query cfg drv test_sql (Some [VStr schema]) w in
  exists b,
    _is_schema_allowed cfg drv schema w = (fst probe, Ok b) /\
    (b = true <-> exists rows, snd probe = Ok rows /\ rows <> []) /\
    (forall e, snd probe = Raise e -> b = false).
Proof.
  intros Hv probe.
  unfold _is_schema_allowed, is_all_schemas_allowed, is_auto_discover_schemas.
  rewrite Hv. unfold try_except, bind, ret. fold probe.
  destruct probe as [w' [rows | e]]; cbn [fst snd].
  - exists (0 <? List.length rows)%nat. split; [reflexivity|]. split.
    + split.
      * intros H. exists rows. split; [reflexivity|].
        intros ->. discriminate H.
      * intros (rows' & [= <-] & Hne). destruct rows; [now destruct Hne|].
        reflexivity.
    + intros e [=].
  - exists false. split; [reflexivity|]. split.
    + split; [discriminate | intros (rows & [=] & _)].
    + reflexivity.
Qed.

Lemma auto_discover_fails_closed_witness :
  let cfg := sample_config FULL_ACCESS AutoDiscover 1000 in
  schema_visibility cfg = AutoDiscover /\
  snd (_is_schema_allowed cfg sample_driver "SYSDBA"
         (@mkWorld sample_driver 0 [])) = Ok true /\
  snd (_is_schema_allowed cfg offline_driver "SYSDBA"
         (@mkWorld offline_driver tt [])) = Ok false.
Proof.
  intros cfg. split; [reflexivity|]. split.
  - destruct (auto_discover_fails_closed cfg sample_driver "SYSDBA"
                (@mkWorld sample_driver 0 []) eq_refl) as (b & -> & Hb & _).
    cbn [snd]. f_equal. apply Hb. eexists. split; [reflexivity|].
    discriminate.
  - destruct (auto_discover_fails_closed cfg offline_driver "SYSDBA"
                (@mkWorld offline_driver tt []) eq_refl) as (b & -> & _ & Hb).
    cbn [snd]. f_equal. eapply Hb. reflexivity.
Defined.

(** C9: under the all-schemas strategy every name is allowed; under an
    explicit list a name is allowed exactly when it is one of the listed
    names, character for character.  Neither answer touches the
    database. *)
Theorem static_strategies cfg drv schema (w : world drv) :
  (schema_visibility cfg = AllSchemas ->
   _is_schema_allowed cfg drv schema w = (w, Ok true)) /\
  (forall names, schema_visibility cfg = Explicit names ->
     exists b, _is_schema_allowed cfg drv schema w = (w, Ok b) /\
               (b = true <-> In schema names)).
Proof.
  unfold _is_schema_allowed, is_all_schemas_allowed,
    is_auto_discover_schemas, allowed_schemas.
  split.
  - intros ->. reflexivity.
  - intros names ->. exists (Str.mem schema names).
    split; [reflexivity | apply mem_In].
Qed.

(** No case folding in the explicit list. *)
Example explicit_list_is_case_sensitive :
  let cfg := sample_config READONLY (Explicit ["SYSDBA"]) 1000 in
  let w := mkWorld (0 : db sample_driver) [] in
  snd (_is_schema_allowed cfg sample_driver "SYSDBA" w) = Ok true /\
  snd (_is_schema_allowed cfg sample_driver "OTHER" w) = Ok false /\
  snd (_is_schema_allowed cfg sample_driver "sysdba" w) = Ok false.
Proof. repeat split. Qed.

End Executor.

(** ** More on the policy engine *)

Module PolicyMore.
Import SQLValidator Re Spec Spec2.
Import StrFacts ReFacts Policy.

Lemma validate_readonly_unfold (sql : string) :
  validate_sql sql READONLY = _validate_readonly (keyword sql) (normalized sql).
Proof. reflexivity. Qed.

Lemma validate_limited_unfold (sql : string) :
  validate_sql sql LIMITED_WRITE
  = _validate_limited_write (keyword sql) (normalized sql).
Proof. reflexivity. Qed.

Lemma message_unfold (sql : string) (m : SecurityMode) :
  get_error_message sql m =
  match m with
  | READONLY =>
      if Str.mem (keyword sql) WRITE_OPERATIONS
      then "只读模式下禁止写入操作: " ++ keyword sql
      else if Str.mem (keyword sql) DANGEROUS_OPERATIONS
      then "只读模式下禁止危险操作: " ++ keyword sql
      else "只读模式下不支持的操作: " ++ keyword sql
  | LIMITED_WRITE =>
      if Str.mem (keyword sql) DANGEROUS_OPERATIONS
      then "限制写入模式下禁止危险操作: " ++ keyword sql
      else "限制写入模式下不支持的操作: " ++ keyword sql
  | FULL_ACCESS => "操作被安全策略禁止"
  end.
Proof. reflexivity. Qed.

(** *** Blank statements *)

Lemma lstrip_blank (ws : string) : blank ws -> Str.lstrip ws = "".
Proof.
  unfold blank. induction ws as [|c ws IH]; [reflexivity|].
  cbn [Str.all Str.lstrip]. intros H. apply andb_prop in H as [Hc Hws].
  rewrite Hc. auto.
Qed.

Lemma normalized_blank (ws : string) : blank ws -> normalized ws = "".
Proof.
  intros H. unfold normalized, Str.strip. rewrite lstrip_blank; [reflexivity|].
  unfold blank. now rewrite all_space_upper.
Qed.

(** X1: a statement made of white space only, the empty one included,
    has the empty leading keyword and is denied in ReadOnly and in
    LimitedWrite mode; the ReadOnly message then names no operation. *)
Theorem blank_statement_denied (sql : string) :
  blank sql ->
  keyword sql = "" /\
  validate_sql sql READONLY = false /\
  validate_sql sql LIMITED_WRITE = false /\
  get_error_message sql READONLY = "只读模式下不支持的操作: ".
Proof.
  intros H. apply normalized_blank in H.
  assert (K : keyword sql = "") by (unfold keyword; now rewrite H).
  rewrite validate_readonly_unfold, validate_limited_unfold, message_unfold.
  rewrite K. repeat split; reflexivity.
Qed.

Lemma blank_statement_denied_witness :
  let sql := String (ascii_of_nat 9) "  " in
  blank sql /\
  keyword sql = "" /\
  validate_sql sql READONLY = false /\
  validate_sql sql LIMITED_WRITE = false /\
  get_error_message sql READONLY = "只读模式下不支持的操作: ".
Proof.
  intros sql. assert (B : blank sql) by reflexivity.
  split; [exact B | exact (blank_statement_denied sql B)].
Defined.

(** *** LimitedWrite mode, exactly *)

(** X2: LimitedWrite mode allows a statement exactly when its leading
    keyword is a read-only or a write operation and none of the dangerous
    keywords occurs in the normalized text as a substring. *)
Theorem limited_write_allows_iff (sql : string) :
  validate_sql sql LIMITED_WRITE = true <->
  In (keyword sql) (union READONLY_OPERATIONS WRITE_OPERATIONS) /\
  forall k, In k DANGEROUS_OPERATIONS -> ~ substring k (normalized sql).
Proof. rewrite validate_limited_unfold. apply validate_limited_write_spec. Qed.

(** *** Denials decided by the leading keyword *)

(** X3: a statement whose leading keyword is a dangerous operation is
    denied in ReadOnly and in LimitedWrite mode, and in both the message
    reports a forbidden dangerous operation and names the keyword. *)
Theorem dangerous_keyword_denied (sql : string) :
  In (keyword sql) DANGEROUS_OPERATIONS ->
  validate_sql sql READONLY = false /\
  validate_sql sql LIMITED_WRITE = false /\
  get_error_message sql READONLY = "只读模式下禁止危险操作: " ++ keyword sql /\
  get_error_message sql LIMITED_WRITE
  = "限制写入模式下禁止危险操作: " ++ keyword sql.
Proof.
  intros H.
  rewrite validate_readonly_unfold, validate_limited_unfold, !message_unfold.
  repeat destruct H as [<- | H]; [..| destruct H]; repeat split; reflexivity.
Qed.

Lemma dangerous_keyword_denied_witness :
  let sql := "drop table t" in
  In (keyword sql) DANGEROUS_OPERATIONS /\
  validate_sql sql READONLY = false /\
  validate_sql sql LIMITED_WRITE = false /\
  get_error_message sql READONLY = "只读模式下禁止危险操作: DROP" /\
  get_error_message sql LIMITED_WRITE = "限制写入模式下禁止危险操作: DROP".
Proof.
  intros sql.
  assert (K : In (keyword sql) DANGEROUS_OPERATIONS) by (right; left; reflexivity).
  split; [exact K | exact (dangerous_keyword_denied sql K)].
Defined.

(** X4: a statement whose leading keyword is INSERT or UPDATE is denied
    in ReadOnly mode, whatever follows, and the message reports a
    forbidden write operation and names the keyword. *)
Theorem write_keyword_denied_readonly (sql : string) :
  In (keyword sql) WRITE_OPERATIONS ->
  validate_sql sql READONLY = false /\
  get_error_message sql READONLY = "只读模式下禁止写入操作: " ++ keyword sql.
Proof.
  intros H. rewrite validate_readonly_unfold, message_unfold.
  repeat destruct H as [<- | H]; [..| destruct H]; split; reflexivity.
Qed.

Lemma write_keyword_denied_readonly_witness :
  let sql := "Insert into t values (1)" in
  In (keyword sql) WRITE_OPERATIONS /\
  validate_sql sql READONLY = false /\
  get_error_message sql READONLY = "只读模式下禁止写入操作: INSERT".
Proof.
  intros sql.
  assert (K : In (keyword sql) WRITE_OPERATIONS) by (left; reflexivity).
  split; [exact K | exact (write_keyword_denied_readonly sql K)].
Defined.

(** *** The leading keyword of a statement that starts with a word *)

Lemma nonspace_upper (w : string) :
  Str.all nonspace (Str.upper w) = Str.all nonspace w.
Proof.
  induction w as [|c w IH]; [reflexivity|].
  cbn [Str.upper Str.all]. unfold nonspace at 1 3.
  now rewrite isspace_upper, IH.
Qed.

Lemma rstrip_nonspace_app (w t : string) :
  Str.all nonspace w = true -> Str.rstrip (w ++ t) = w ++ Str.rstrip t.
Proof.
  induction w as [|c w IH]; [reflexivity|].
  cbn [Str.all]. intros H. apply andb_prop in H as [Hc Hw].
  cbn [String.append Str.rstrip]. rewrite (IH Hw).
  unfold nonspace in Hc. apply negb_true_iff in Hc. now rewrite Hc.
Qed.

Lemma take_while_app (p : ascii -> bool) (w t : string) :
  Str.all p w = true -> take_while p (w ++ t) = w ++ take_while p t.
Proof.
  induction w as [|c w IH]; [reflexivity|].
  cbn [Str.all]. intros H. apply andb_prop in H as [Hc Hw].
  cbn [String.append take_while]. now rewrite Hc, (IH Hw).
Qed.

Lemma rstrip_first (t : string) :
  Str.rstrip t = "" \/ Str.first (Str.rstrip t) = Str.first t.
Proof.
  destruct t as [|c t]; [now left|].
  cbn [Str.rstrip]. destruct (Char.isspace c && Str.is_empty (Str.rstrip t));
    [now left | now right].
Qed.

Lemma keyword_of_first_word (ws w tail : string) :
  blank ws -> w <> "" -> Str.all nonspace w = true -> starts_blank tail ->
  keyword (ws ++ w ++ tail) = Str.upper w.
Proof.
  intros Hws Hne Hw Htail. unfold keyword, normalized, Str.strip.
  rewrite !upper_app.
  rewrite lstrip_spaces_l by (unfold blank in Hws; now rewrite all_space_upper).
  rewrite <- nonspace_upper in Hw.
  assert (Hne' : Str.upper w <> "") by (destruct w; [now destruct Hne | discriminate]).
  assert (Ht : starts_blank (Str.upper tail)).
  { unfold starts_blank in *. destruct tail as [|c tail]; [exact I|].
    cbn [Str.upper Str.first] in *. now rewrite isspace_upper. }
  revert Hw Hne' Ht. generalize (Str.upper w) (Str.upper tail).
  clear. intros W T Hw Hne Ht.
  assert (L : Str.lstrip (W ++ T) = W ++ T).
  { destruct W as [|a W]; [now destruct Hne|].
    cbn [Str.all] in Hw. apply andb_prop in Hw as [Ha _].
    unfold nonspace in Ha. apply negb_true_iff in Ha.
    cbn [String.append Str.lstrip]. now rewrite Ha. }
  rewrite L, rstrip_nonspace_app by assumption.
  rewrite first_keyword_token.
  assert (L' : Str.lstrip (W ++ Str.rstrip T) = W ++ Str.rstrip T).
  { destruct W as [|a W]; [now destruct Hne|].
    cbn [Str.all] in Hw. apply andb_prop in Hw as [Ha _].
    unfold nonspace in Ha. apply negb_true_iff in Ha.
    cbn [String.append Str.lstrip]. now rewrite Ha. }
  rewrite L', take_while_app by assumption.
  replace (take_while nonspace (Str.rstrip T)) with "";
    [apply append_nil_r|].
  destruct (rstrip_first T) as [-> | E]; [reflexivity|].
  unfold starts_blank in Ht. rewrite <- E in Ht.
  destruct (Str.rstrip T) as [|c R]; [reflexivity|].
  cbn [Str.first] in Ht. cbn [take_while]. unfold nonspace. now rewrite Ht.
Qed.

(** X5: when a statement is some white space, then a word free of white
    space, then nothing or text that starts with white space, its leading
    keyword is that word in upper case, whatever the rest contains. *)
Theorem leading_keyword_is_first_word (ws w tail : string) :
  blank ws -> w <> "" -> Str.all nonspace w = true -> starts_blank tail ->
  keyword (ws ++ w ++ tail) = Str.upper w.
Proof. exact (keyword_of_first_word ws w tail). Qed.

Lemma leading_keyword_is_first_word_witness :
  blank "  " /\ "select" <> "" /\ Str.all nonspace "select" = true /\
  starts_blank " 1;drop table t" /\
  keyword ("  " ++ "select" ++ " 1;drop table t") = "SELECT".
Proof.
  assert (B : blank "  ") by reflexivity.
  assert (N : "select" <> "") by discriminate.
  assert (A : Str.all nonspace "select" = true) by reflexivity.
  assert (T : starts_blank " 1;drop table t") by reflexivity.
  split; [exact B|]. split; [exact N|]. split; [exact A|]. split; [exact T|].
  exact (leading_keyword_is_first_word "  " "select" " 1;drop table t" B N A T).
Defined.

End PolicyMore.

(** ** More on the executor *)

Module ExecutorMore.
Import SQLValidator DamengDatabase Exec Spec Spec2.
Import StrFacts Policy Executor.

(** *** How traces compose *)

Section Emits.
Context {drv : Driver}.
Variable P : event -> Prop.

Lemma emits_ret {A} (a : A) : emits P (@ret drv A a).
Proof. intros w. exists []. split; [now rewrite app_nil_r | constructor]. Qed.

Lemma emits_raise {A} (e : exn) : emits P (@raise drv A e).
Proof. intros w. exists []. split; [now rewrite app_nil_r | constructor]. Qed.

Lemma emits_read {A} (attr : db drv -> A) : emits P (read attr).
Proof. intros w. exists []. split; [now rewrite app_nil_r | constructor]. Qed.

Lemma emits_emit (ev : event) : P ev -> emits P (@emit drv ev).
Proof. intros H w. exists [ev]. split; [reflexivity | now repeat constructor]. Qed.

Lemma emits_log lvl m : P (Log lvl m) -> emits P (@log drv lvl m).
Proof. apply emits_emit. Qed.

Lemma emits_call {A} (ev : event) (op : db drv -> db drv * result A) :
  P ev -> emits P (call ev op).
Proof.
  intros H w. exists [ev]. unfold call. destruct (op (wdb w)).
  split; [reflexivity | now repeat constructor].
Qed.

Lemma emits_bind {A B} (m : M drv A) (k : A -> M drv B) :
  emits P m -> (forall a, emits P (k a)) -> emits P (bind m k).
Proof.
  intros Hm Hk w. unfold bind. destruct (Hm w) as (e1 & E1 & F1).
  destruct (m w) as [w1 [a | e]]; cbn [fst] in *.
  - destruct (Hk a w1) as (e2 & E2 & F2). exists (e1 ++ e2)%list. split.
    + now rewrite E2, E1, app_assoc.
    + now apply Forall_app.
  - now exists e1.
Qed.

Lemma emits_try_except {A} (m : M drv A) (h : exn -> M drv A) :
  emits P m -> (forall e, emits P (h e)) -> emits P (try_except m h).
Proof.
  intros Hm Hh w. unfold try_except. destruct (Hm w) as (e1 & E1 & F1).
  destruct (m w) as [w1 [a | e]]; cbn [fst] in *.
  - now exists e1.
  - destruct (Hh e w1) as (e2 & E2 & F2). exists (e1 ++ e2)%list. split.
    + now rewrite E2, E1, app_assoc.
    + now apply Forall_app.
Qed.

End Emits.

Lemma emits_weaken {drv A} (P Q : event -> Prop) (m : M drv A) :
  (forall e, P e -> Q e) -> emits P m -> emits Q m.
Proof.
  intros H Hm w. destruct (Hm w) as (evs & E & F). exists evs.
  split; [assumption | eapply Forall_impl; eauto].
Qed.

(** *** The events of one statement *)

Section Statement.
Variable cfg : Config.
Variable drv : Driver.
Variable sql : string.
Variable params : option (list value).

Let P := session_event sql params.

Lemma emits_log_dm_error {A} (msg : log_msg) (body : M drv A) :
  emits P body -> emits P (log_dm_error drv msg body).
Proof.
  intros H. unfold log_dm_error. apply emits_try_except; [assumption|].
  intros e. destruct (is_dm_error e).
  - apply emits_bind; [now apply emits_log | intros; apply emits_raise].
  - apply emits_raise.
Qed.

Lemma emits_limit_rows (dicts : list dict) : emits P (limit_rows cfg drv dicts).
Proof.
  unfold limit_rows. destruct (_ <? _)%Z.
  - apply emits_bind; [now apply emits_log | intros; apply emits_ret].
  - apply emits_ret.
Qed.

Lemma emits_fetch_results : emits P (fetch_results cfg drv).
Proof.
  unfold fetch_results.
  apply emits_bind; [now apply emits_call | intros results].
  apply emits_bind; [apply emits_read | intros description].
  apply emits_bind; [apply emits_limit_rows | intros out].
  apply emits_bind; [now apply emits_log | intros; apply emits_ret].
Qed.

Lemma emits_commit_update : emits P (commit_update drv).
Proof.
  unfold commit_update.
  apply emits_bind; [now apply emits_call | intros _].
  apply emits_bind; [apply emits_read | intros n].
  apply emits_bind; [now apply emits_log | intros; apply emits_ret].
Qed.

(** The statement proper: what [execute_query] runs inside the
    connection. *)
Lemma emits_statement :
  emits P
    (log_dm_error drv MsgSqlFailed
       (call (Execute sql params) (dm_execute drv sql params) ;;
        if Str.startswith_any (Str.strip (Str.upper sql)) query_prefixes
        then fetch_results cfg drv
        else commit_update drv)).
Proof.
  apply emits_log_dm_error.
  apply emits_bind; [apply emits_call; right; now split | intros _].
  destruct (Str.startswith_any _ _);
    [apply emits_fetch_results | apply emits_commit_update].
Qed.

(** Opening and closing: a connection that cannot be opened is not
    closed; one that was opened is closed last, whatever happened
    inside. *)
Lemma get_connection_shape {A} (body : M drv A) (w : world drv) :
  emits P body ->
  let run := get_connection cfg drv body w in
  (exists e errs,
      snd (dm_connect drv (wdb w)) = Raise e /\ snd run = Raise e /\
      Forall is_log errs /\
      wtrace (fst run) = (wtrace w ++ Connect :: errs)%list) \/
  (exists u mid,
      snd (dm_connect drv (wdb w)) = Ok u /\ Forall P mid /\
      wtrace (fst run)
      = (wtrace w ++ Connect :: mid ++ [Close; Log INFO MsgClosed])%list).
Proof.
  intros Hbody run. subst run. unfold get_connection, call.
  destruct (dm_connect drv (wdb w)) as [d [u | e]]; cbn [snd].
  - right. exists u.
    set (w1 := {| wdb := d; wtrace := wtrace w ++ [Connect] |}).
    match goal with
    | |- context [try_finally ?m ?f w1] =>
        assert (Hm : emits P m); [| set (inner := m) in *; set (fin := f) ]
    end.
    { apply emits_log_dm_error.
      apply emits_bind.
      { destruct (Str.is_empty (database cfg));
          [apply emits_ret | now apply emits_log]. }
      intros _. apply emits_bind.
      { destruct (is_readonly_mode cfg); [|apply emits_ret].
        apply emits_bind; [apply emits_call; left; now split | intros _].
        now apply emits_log. }
      intros _. apply emits_bind; [now apply emits_call | intros _].
      apply emits_bind; [now apply emits_log | intros _; exact Hbody]. }
    destruct (Hm w1) as (mid & E & F). exists mid. split; [reflexivity|].
    split; [exact F|].
    unfold try_finally. destruct (inner w1) as [w2 r]. cbn [fst] in E |- *.
    unfold fin, bind, emit, log, emit. cbn [fst wtrace wdb].
    rewrite E. unfold w1. cbn [wtrace].
    now rewrite <- !app_assoc.
  - left. exists e. destruct (is_dm_error e).
    + exists [Log ERROR MsgConnError]. repeat split.
      * repeat constructor.
      * unfold bind, log, emit, raise. cbn [fst wtrace].
        now rewrite <- app_assoc.
    + exists []. repeat split; constructor.
Qed.

Lemma bind_log_run {A} lvl m (k : M drv A) (w : world drv) :
  (log lvl m ;; k) w
  = k {| wdb := wdb w; wtrace := wtrace w ++ [Log lvl m] |}.
Proof. reflexivity. Qed.

Lemma bind_ret_run {A} (k : M drv A) (w : world drv) : (ret tt ;; k) w = k w.
Proof. reflexivity. Qed.

(** The whole of [execute_query]: nothing at all for a denied statement;
    otherwise at most the query-log line, then the connection. *)
Lemma execute_query_shape (w : world drv) :
  let run := execute_query cfg drv sql params w in
  (validate_sql sql (security_mode cfg) = false /\
   run = (w, Raise (ValueError
                      ("SQL操作被安全策略禁止: "
                       ++ get_error_message sql (security_mode cfg))))) \/
  (validate_sql sql (security_mode cfg) = true /\
   exists pre, Forall is_log pre /\
     ((exists e errs,
          snd (dm_connect drv (wdb w)) = Raise e /\ snd run = Raise e /\
          Forall is_log errs /\
          wtrace (fst run) = (wtrace w ++ pre ++ Connect :: errs)%list) \/
      (exists u mid,
          snd (dm_connect drv (wdb w)) = Ok u /\ Forall P mid /\
          wtrace (fst run)
          = (wtrace w ++ pre ++ Connect :: mid
               ++ [Close; Log INFO MsgClosed])%list))).
Proof.
  intros run. subst run. unfold execute_query.
  destruct (validate_sql sql (security_mode cfg)); cbn [negb].
  - right. split; [reflexivity|].
    destruct (enable_query_log cfg).
    + exists [Log INFO MsgExecSql]. split; [repeat constructor|].
      rewrite bind_log_run.
      set (w0 := {| wdb := wdb w; wtrace := wtrace w ++ [Log INFO MsgExecSql] |}).
      destruct (get_connection_shape _ w0 emits_statement)
        as [(e & errs & C & R & F & T) | (u & mid & C & F & T)].
      * left. exists e, errs. repeat split; try assumption.
        rewrite T. unfold w0. cbn [wtrace]. now rewrite <- app_assoc.
      * right. exists u, mid. repeat split; try assumption.
        rewrite T. unfold w0. cbn [wtrace]. now rewrite <- app_assoc.
    + exists []. split; [constructor|].
      rewrite bind_ret_run.
      destruct (get_connection_shape _ w emits_statement)
        as [(e & errs & C & R & F & T) | (u & mid & C & F & T)].
      * left. exists e, errs. repeat split; assumption.
      * right. exists u, mid. repeat split; assumption.
  - left. split; reflexivity.
Qed.

End Statement.

(** *** What reaches the driver *)

Lemma not_log_execute (l : list event) s p :
  Forall is_log l -> ~ In (Execute s p) l.
Proof.
  intros F H. rewrite Forall_forall in F. exact (F _ H).
Qed.

Lemma not_log_close (l : list event) : Forall is_log l -> ~ In Close l.
Proof.
  intros F H. rewrite Forall_forall in F. exact (F _ H).
Qed.

Lemma not_log_connect (l : list event) : Forall is_log l -> ~ In Connect l.
Proof.
  intros F H. rewrite Forall_forall in F. exact (F _ H).
Qed.

Lemma session_no_connect sql params (l : list event) :
  Forall (session_event sql params) l -> ~ In Connect l /\ ~ In Close l.
Proof.
  intros F. rewrite Forall_forall in F. split; intros H; exact (F _ H).
Qed.

Lemma execute_query_gate cfg drv sql params (w : world drv) :
  exists evs,
    events_of (execute_query cfg drv sql params) w evs /\
    (forall s p, In (Execute s p) evs ->
       (s = session_sql /\ p = None) \/
       (s = sql /\ p = params /\
        validate_sql sql (security_mode cfg) = true)) /\
    (validate_sql sql (security_mode cfg) = false ->
       evs = [] /\ wdb (fst (execute_query cfg drv sql params w)) = wdb w).
Proof.
  unfold events_of.
  destruct (execute_query_shape cfg drv sql params w)
    as [(V & R) | (V & pre & Fpre & [(e & errs & C & R & F & T)
                                     | (u & mid & C & F & T)])].
  - exists []. rewrite R. cbn [fst wtrace]. split; [now rewrite app_nil_r|].
    split; [intros s p []| auto].
  - exists (pre ++ Connect :: errs)%list. split; [exact T|]. split.
    + intros s p H. apply in_app_or in H as [H | [H | H]].
      * now apply not_log_execute in H.
      * discriminate H.
      * now apply not_log_execute in H.
    + congruence.
  - exists (pre ++ Connect :: mid ++ [Close; Log INFO MsgClosed])%list.
    split; [exact T|]. split.
    + intros s p H. apply in_app_or in H as [H | [H | H]].
      * now apply not_log_execute in H.
      * discriminate H.
      * apply in_app_or in H as [H | [H | [H | []]]]; try discriminate H.
        rewrite Forall_forall in F. specialize (F _ H). cbn in F.
        destruct F as [F | [F1 F2]]; [now left | right; auto].
    + congruence.
Qed.

(** X6: a statement the configured mode denies never reaches the
    database: [execute_query] adds nothing to the trace and leaves the
    database state as it was.  Whatever [execute_query] does hand to the
    driver is the session statement or the statement it was given, with
    its parameters, after that statement passed the check. *)
Theorem only_checked_statements_reach_driver cfg drv sql params
        (w : world drv) :
  exists evs,
    events_of (execute_query cfg drv sql params) w evs /\
    (forall s p, In (Execute s p) evs ->
       (s = session_sql /\ p = None) \/
       (s = sql /\ p = params /\
        validate_sql sql (security_mode cfg) = true)) /\
    (validate_sql sql (security_mode cfg) = false ->
       evs = [] /\ wdb (fst (execute_query cfg drv sql params w)) = wdb w).
Proof. apply execute_query_gate. Qed.

(** X7: the connection is closed exactly when it was opened.  When the
    statement is permitted and the driver connects, the trace of
    [execute_query] ends with the closing of the connection, and there is
    one opening and one closing in it; when the statement is denied or the
    driver cannot connect, nothing is closed and nothing is executed. *)
Theorem connection_closed_when_opened cfg drv sql params (w : world drv) :
  exists evs,
    events_of (execute_query cfg drv sql params) w evs /\
    (validate_sql sql (security_mode cfg) = true ->
     forall u, snd (dm_connect drv (wdb w)) = Ok u ->
     exists pre mid,
       evs = (pre ++ Connect :: mid ++ [Close; Log INFO MsgClosed])%list /\
       ~ In Connect pre /\ ~ In Close pre /\
       ~ In Connect mid /\ ~ In Close mid) /\
    (validate_sql sql (security_mode cfg) = false \/
     (exists e, snd (dm_connect drv (wdb w)) = Raise e) ->
     ~ In Close evs /\ forall s p, ~ In (Execute s p) evs).
Proof.
  unfold events_of.
  destruct (execute_query_shape cfg drv sql params w)
    as [(V & R) | (V & pre & Fpre & [(e & errs & C & R & F & T)
                                     | (u & mid & C & F & T)])].
  - exists []. rewrite R. cbn [fst wtrace]. split; [now rewrite app_nil_r|].
    split; [congruence|]. intros _. split; [intros [] | intros s p []].
  - exists (pre ++ Connect :: errs)%list. split; [exact T|]. split.
    + intros _ u Hu. congruence.
    + intros _. split.
      * intros H. apply in_app_or in H as [H | [H | H]];
          [now apply not_log_close in H | discriminate H
           | now apply not_log_close in H].
      * intros s p H. apply in_app_or in H as [H | [H | H]];
          [now apply not_log_execute in H | discriminate H
           | now apply not_log_execute in H].
  - exists (pre ++ Connect :: mid ++ [Close; Log INFO MsgClosed])%list.
    split; [exact T|]. split.
    + intros _ u' _. exists pre, mid. split; [reflexivity|].
      destruct (session_no_connect _ _ _ F) as [F1 F2].
      repeat split; auto using not_log_connect, not_log_close.
    + intros [H | (e & H)]; congruence.
Qed.

(** X8: a system query is checked twice.  [execute_safe_query] refuses,
    without touching the database, a statement that ReadOnly mode denies,
    whatever the configured mode; and what it hands to the driver has
    passed both the ReadOnly check and the check of the configured mode. *)
Theorem safe_query_checked_twice cfg drv sql params (w : world drv) :
  exists evs,
    events_of (execute_safe_query cfg drv sql params) w evs /\
    (forall s p, In (Execute s p) evs ->
       (s = session_sql /\ p = None) \/
       (s = sql /\ p = params /\
        validate_sql sql READONLY = true /\
        validate_sql sql (security_mode cfg) = true)) /\
    (validate_sql sql READONLY = false ->
       execute_safe_query cfg drv sql params w
       = (w, Raise (ValueError "系统查询必须是只读操作"))).
Proof.
  unfold events_of, execute_safe_query.
  destruct (validate_sql sql READONLY) eqn:V; cbn [negb].
  - destruct (execute_query_gate cfg drv sql params w) as (evs & E & G & _).
    exists evs. split; [exact E|]. split; [|discriminate].
    intros s p H. destruct (G s p H) as [L | (A & B & C)]; [now left|].
    right. auto.
  - exists []. cbn [fst wtrace raise]. split; [now rewrite app_nil_r|].
    split; [intros s p [] | reflexivity].
Qed.

End ExecutorMore.

(** ** Dictionaries and rows *)

Module DictFacts.
Import Py DamengDatabase.

Lemma dict_get_set_same (k : string) (v : value) (d : dict) :
  dict_get k (dict_set k v d) = Some v.
Proof.
  induction d as [|[k' v'] d IH]; cbn [dict_set dict_get].
  - now rewrite String.eqb_refl.
  - destruct (String.eqb_spec k k') as [<- | N]; cbn [dict_get].
    + now rewrite String.eqb_refl.
    + apply String.eqb_neq in N. now rewrite N.
Qed.

Lemma dict_get_set_other (k k' : string) (v : value) (d : dict) :
  k <> k' -> dict_get k' (dict_set k v d) = dict_get k' d.
Proof.
  intros N. induction d as [|[k0 v0] d IH]; cbn [dict_set dict_get].
  - apply not_eq_sym, String.eqb_neq in N. now rewrite N.
  - destruct (String.eqb_spec k k0) as [<- | N0]; cbn [dict_get].
    + apply not_eq_sym, String.eqb_neq in N. now rewrite N.
    + now rewrite IH.
Qed.

Lemma dict_set_fresh (k : string) (v : value) (d : dict) :
  ~ In k (map fst d) -> dict_set k v d = (d ++ [(k, v)])%list.
Proof.
  induction d as [|[k' v'] d IH]; cbn [dict_set map fst In app];
    [reflexivity|].
  intros H. destruct (String.eqb_spec k k') as [-> | N].
  - destruct H. now left.
  - rewrite IH; [reflexivity | intros HI; apply H; now right].
Qed.

Lemma dict_of_fresh (pairs : list (string * value)) :
  forall d0 : dict,
    NoDup (map fst d0 ++ map fst pairs) ->
    fold_left (fun d kv => dict_set (fst kv) (snd kv) d) pairs d0
    = (d0 ++ pairs)%list.
Proof.
  induction pairs as [|[k v] pairs IH]; intros d0 H; cbn [fold_left fst snd].
  - now rewrite app_nil_r.
  - cbn [map fst] in H.
    assert (Hk : ~ In k (map fst d0)).
    { apply NoDup_remove_2 in H. intros HI. apply H, in_or_app. now left. }
    rewrite (dict_set_fresh k v d0 Hk), IH.
    + now rewrite <- app_assoc.
    + rewrite map_app, <- app_assoc. exact H.
Qed.

Lemma dict_get_In (k : string) (v : value) (d : dict) :
  NoDup (map fst d) -> In (k, v) d -> dict_get k d = Some v.
Proof.
  induction d as [|[k' v'] d IH]; cbn [map fst In dict_get]; [intros _ []|].
  intros ND [E | H].
  - injection E as -> ->. now rewrite String.eqb_refl.
  - destruct (String.eqb_spec k k') as [-> | N].
    + apply NoDup_cons_iff in ND as [ND _]. destruct ND.
      change k' with (fst (k', v)). now apply in_map.
    + apply IH; [now apply NoDup_cons_iff in ND | assumption].
Qed.

Lemma NoDup_combine_fst (columns : list string) (row : list value) :
  NoDup columns -> NoDup (map fst (combine columns row)).
Proof.
  revert row. induction columns as [|c columns IH]; intros row ND;
    [constructor|].
  destruct row as [|v row]; [constructor|]. cbn [combine map fst].
  apply NoDup_cons_iff in ND as [Hc ND]. constructor; [|now apply IH].
  intros H. apply Hc. apply in_map_iff in H as ([c' v'] & <- & H).
  now apply in_combine_l in H.
Qed.

Lemma nth_error_combine (columns : list string) (row : list value) :
  forall i c v,
    nth_error columns i = Some c -> nth_error row i = Some v ->
    In (c, v) (combine columns row).
Proof.
  revert row. induction columns as [|c0 columns IH]; intros row i c v Hc Hv.
  - now destruct i.
  - destruct row as [|v0 row]; [now destruct i|].
    destruct i as [|i]; cbn in Hc, Hv.
    + injection Hc as ->. injection Hv as ->. now left.
    + right. eapply IH; eassumption.
Qed.

(** X9: when the column names the driver reports are pairwise distinct,
    the mapping built for a row lists the columns in their order, each
    with the value at the same position, and looking a column up gives
    that value. *)
Theorem row_dict_lookup (columns : list string) (row : list value) :
  NoDup columns ->
  row_dict columns row = combine columns row /\
  forall i c v,
    nth_error columns i = Some c -> nth_error row i = Some v ->
    dict_get c (row_dict columns row) = Some v.
Proof.
  intros ND.
  assert (E : row_dict columns row = combine columns row).
  { unfold row_dict, dict_of. rewrite dict_of_fresh; [reflexivity|].
    cbn [map app]. now apply NoDup_combine_fst. }
  split; [exact E|]. intros i c v Hc Hv. rewrite E.
  apply dict_get_In; [now apply NoDup_combine_fst|].
  eapply nth_error_combine; eassumption.
Qed.

Lemma row_dict_lookup_witness :
  NoDup ["ID"; "NAME"] /\
  row_dict ["ID"; "NAME"] [VInt 7; VStr "a"]
  = [("ID", VInt 7); ("NAME", VStr "a")] /\
  dict_get "NAME" (row_dict ["ID"; "NAME"] [VInt 7; VStr "a"])
  = Some (VStr "a").
Proof.
  assert (ND : NoDup ["ID"; "NAME"]).
  { constructor; [intros [H | []]; discriminate H|].
    constructor; [intros []| constructor]. }
  split; [exact ND|].
  destruct (row_dict_lookup ["ID"; "NAME"] [VInt 7; VStr "a"] ND) as [E L].
  split; [exact E|]. exact (L 1%nat "NAME" (VStr "a") eq_refl eq_refl).
Defined.

End DictFacts.

(** ** The catalog queries *)

Module CatalogFacts.
Import SQLValidator DamengDatabase Exec Spec Spec2 Py Catalog.
Import StrFacts Policy Executor.

(** *** The resolver, once more *)

Lemma resolver_never_raises cfg drv schema (w : world drv) :
  exists b, snd (_is_schema_allowed cfg drv schema w) = Ok b.
Proof.
  unfold _is_schema_allowed, is_all_schemas_allowed, is_auto_discover_schemas.
  destruct (schema_visibility cfg); [now exists true | | eexists; reflexivity].
  unfold try_except, bind, ret.
  destruct (execute_safe_query _ _ _ _ w) as [w' [rows | e]];
    eexists; reflexivity.
Qed.

Lemma resolver_explicit cfg drv schema names (w : world drv) :
  schema_visibility cfg = Explicit names ->
  _is_schema_allowed cfg drv schema w = (w, Ok (Str.mem schema names)).
Proof.
  unfold _is_schema_allowed, is_all_schemas_allowed, is_auto_discover_schemas,
    allowed_schemas.
  now intros ->.
Qed.

Lemma resolver_all cfg drv schema (w : world drv) :
  schema_visibility cfg = AllSchemas ->
  _is_schema_allowed cfg drv schema w = (w, Ok true).
Proof.
  unfold _is_schema_allowed, is_all_schemas_allowed. now intros ->.
Qed.

Lemma mem_false (x : string) (S : list string) :
  ~ In x S -> Str.mem x S = false.
Proof.
  intros H. destruct (Str.mem x S) eqn:E; [|reflexivity].
  apply mem_In in E. now destruct H.
Qed.

(** *** The schema gate *)

(** X10: under an explicit list of schemas, a schema that is not on the
    list is refused by all four table look-ups with the same
    [ValueError], which names the schema and shows the configured list;
    the database is not touched, and the two look-ups that otherwise
    swallow failures let this one through. *)
Theorem unlisted_schema_refused cfg drv display table schema names
        (w : world drv) :
  schema_visibility cfg = Explicit names ->
  ~ In schema names ->
  let refusal :=
    ValueError ("不允许访问模式: " ++ schema ++ "，允许的模式: "
                ++ display names) in
  get_all_tables cfg drv display schema w = (w, Raise refusal) /\
  get_table_structure cfg drv display table schema w = (w, Raise refusal) /\
  get_table_indexes cfg drv display table schema w = (w, Raise refusal) /\
  get_table_constraints cfg drv display table schema w = (w, Raise refusal).
Proof.
  intros Hv Hn refusal.
  assert (R : schema_denied cfg display schema = refusal).
  { unfold schema_denied, _get_allowed_schemas_display,
      is_all_schemas_allowed, is_auto_discover_schemas, allowed_schemas.
    now rewrite Hv. }
  unfold get_all_tables, get_table_structure, get_table_indexes,
    get_table_constraints, bind.
  rewrite (resolver_explicit cfg drv schema names w Hv), (mem_false _ _ Hn).
  cbn [negb]. unfold raise. rewrite R. repeat split.
Qed.

Lemma unlisted_schema_refused_witness :
  let cfg := sample_config READONLY (Explicit ["SYSDBA"]) 1000 in
  let w := @mkWorld sample_driver 0 [] in
  schema_visibility cfg = Explicit ["SYSDBA"] /\
  ~ In "HR" ["SYSDBA"] /\
  get_table_indexes cfg sample_driver sample_display "T" "HR" w
  = (w, Raise (ValueError ("不允许访问模式: HR，允许的模式: ['SYSDBA']"))).
Proof.
  intros cfg w.
  assert (Hv : schema_visibility cfg = Explicit ["SYSDBA"]) by reflexivity.
  assert (Hn : ~ In "HR" ["SYSDBA"]) by (intros [H | []]; discriminate H).
  split; [exact Hv|]. split; [exact Hn|].
  exact (proj1 (proj2 (proj2
    (unlisted_schema_refused cfg sample_driver sample_display "T" "HR"
       ["SYSDBA"] w Hv Hn)))).
Defined.

(** X11: the index and the constraint look-up raise nothing but the
    refusal of the schema.  When the resolver answers false they raise
    that [ValueError]; when it answers true they return the rows of their
    query if it succeeds, and the empty list, with their warning, if the
    query raises anything at all. *)
Theorem index_and_constraint_queries_degrade cfg drv display table schema
        (w : world drv) :
  exists w1 b,
    _is_schema_allowed cfg drv schema w = (w1, Ok b) /\
    let params := Some [VStr table; VStr schema] in
    let qi := execute_safe_query cfg drv indexes_sql params w1 in
    let qc := execute_safe_query cfg drv constraints_sql params w1 in
    (b = false ->
     get_table_indexes cfg drv display table schema w
     = (w1, Raise (schema_denied cfg display schema)) /\
     get_table_constraints cfg drv display table schema w
     = (w1, Raise (schema_denied cfg display schema))) /\
    (b = true ->
     get_table_indexes cfg drv display table schema w
     = (fst qi, Ok match snd qi with
                   | Ok rows => (rows, [])
                   | Raise _ => ([], [IndexInfoFailed])
                   end) /\
     get_table_constraints cfg drv display table schema w
     = (fst qc, Ok match snd qc with
                   | Ok rows => (rows, [])
                   | Raise _ => ([], [ConstraintInfoFailed])
                   end)).
Proof.
  destruct (resolver_never_raises cfg drv schema w) as (b & Hb).
  destruct (_is_schema_allowed cfg drv schema w) as [w1 r] eqn:E.
  cbn [snd] in Hb. subst r. exists w1, b. split; [reflexivity|].
  unfold get_table_indexes, get_table_constraints, try_except, bind, ret,
    raise.
  rewrite !E. cbn zeta.
  split; intros ->; cbn [negb]; [split; reflexivity|].
  destruct (execute_safe_query cfg drv indexes_sql _ w1) as [wi [ri | ei]],
    (execute_safe_query cfg drv constraints_sql _ w1) as [wc [rc | ec]];
    split; reflexivity.
Qed.

(** *** Which catalog statements the modes permit *)

Lemma tables_sql_permitted (m : SecurityMode) :
  validate_sql tables_sql m = true.
Proof. destruct m; lazy; reflexivity. Qed.

Lemma schemas_sql_permitted (m : SecurityMode) :
  validate_sql schemas_sql m = true.
Proof. destruct m; lazy; reflexivity. Qed.

Lemma structure_sql_permitted (m : SecurityMode) :
  validate_sql structure_sql m = true.
Proof. destruct m; lazy; reflexivity. Qed.

Lemma constraints_sql_permitted (m : SecurityMode) :
  validate_sql constraints_sql m = true.
Proof. destruct m; lazy; reflexivity. Qed.

Lemma connection_sql_permitted (m : SecurityMode) :
  validate_sql connection_sql m = true.
Proof. destruct m; lazy; reflexivity. Qed.



Lemma safe_query_runs_as_query cfg drv sql params :
  validate_sql sql READONLY = true ->
  validate_sql sql (security_mode cfg) = true ->
  Str.startswith_any (normalized sql) query_prefixes = true ->
  forall w : world drv,
    execute_safe_query cfg drv sql params w
    = run_with cfg drv sql params (fetch_results cfg drv) w.
Proof.
  intros V1 V2 P w. unfold execute_safe_query, execute_query, run_with.
  rewrite V1, V2. cbn [negb].
  change (Str.strip (Str.upper sql)) with (normalized sql). now rewrite P.
Qed.



(** X13: in every security mode the schema list, the table list and the
    table structure are obtained on the query branch of the executor:
    [get_available_schemas] always, the other two once the schema is
    permitted, each look-up is the run of its statement with its
    parameters, fetched and limited like any query. *)
Theorem catalog_lookups_run_as_queries cfg drv display :
  (forall w : world drv,
     get_available_schemas cfg drv w
     = run_with cfg drv schemas_sql None (fetch_results cfg drv) w) /\
  (forall table schema (w w1 : world drv),
     _is_schema_allowed cfg drv schema w = (w1, Ok true) ->
     get_all_tables cfg drv display schema w
     = run_with cfg drv tables_sql (Some [VStr schema])
         (fetch_results cfg drv) w1 /\
     get_table_structure cfg drv display table schema w
     = run_with cfg drv structure_sql
         (Some [VStr table; VStr schema; VStr table; VStr schema])
         (fetch_results cfg drv) w1).
Proof.
  split.
  - intros w. unfold get_available_schemas.
    apply safe_query_runs_as_query;
      auto using schemas_sql_permitted; vm_compute; reflexivity.
  - intros table schema w w1 Hs. unfold get_all_tables, get_table_structure.
    unfold bind at 1 2. rewrite Hs. cbn [negb].
    split; apply safe_query_runs_as_query;
      auto using tables_sql_permitted, structure_sql_permitted;
      vm_compute; reflexivity.
Qed.

Lemma catalog_lookups_run_as_queries_witness :
  let cfg := sample_config LIMITED_WRITE AllSchemas 2 in
  let w := @mkWorld sample_driver 0 [] in
  _is_schema_allowed cfg sample_driver "SYSDBA" w = (w, Ok true) /\
  get_all_tables cfg sample_driver sample_display "SYSDBA" w
  = run_with cfg sample_driver tables_sql (Some [VStr "SYSDBA"])
      (fetch_results cfg sample_driver) w /\
  get_available_schemas cfg sample_driver w
  = run_with cfg sample_driver schemas_sql None
      (fetch_results cfg sample_driver) w.
Proof.
  intros cfg w.
  assert (Hs : _is_schema_allowed cfg sample_driver "SYSDBA" w = (w, Ok true))
    by reflexivity.
  destruct (catalog_lookups_run_as_queries cfg sample_driver sample_display)
    as [Hschemas Htables].
  split; [exact Hs|]. split.
  - exact (proj1 (Htables "T" "SYSDBA" w w Hs)).
  - exact (Hschemas w).
Defined.

(** *** The connection test *)


(** A healthy database whose driver spells the column in capitals fails
    the test. *)
Example connection_test_upper_case_column :
  let drv :=
    mkDriver unit (fun d => (d, Ok tt)) (fun _ _ d => (d, Ok tt))
      (fun d => (d, Ok [[VInt 1]])) (fun _ => Some ["TEST_CONNECTION"])
      (fun _ => 0%Z) (fun d => (d, Ok tt)) (fun d => d) in
  snd (test_connection (sample_config READONLY AllSchemas 1000) drv
         (@mkWorld drv tt []))
  = Ok (false, [ConnectionTestFailed]).
Proof. lazy. reflexivity. Qed.

End CatalogFacts.

(** ** The document generator and its input *)

Module DocFacts.
Import SQLValidator Spec Spec2 Py DocumentGenerator Main.
Import StrFacts Policy PolicyMore DictFacts.

(** *** Field names in either case *)

Lemma char_lower_idem (c : ascii) : char_lower (char_lower c) = char_lower c.
Proof. by_cases_on c. Qed.

Lemma lower_idem (s : string) : lower (lower s) = lower s.
Proof.
  induction s as [|c s IH]; [reflexivity|].
  cbn [lower]. now rewrite char_lower_idem, IH.
Qed.

Lemma step_get_lower n k v :
  dict_get (lower k) (normalize_step n (k, v)) = Some v.
Proof. apply dict_get_set_same. Qed.

Lemma step_get_key n k v : dict_get k (normalize_step n (k, v)) = Some v.
Proof.
  unfold normalize_step. cbn [fst snd].
  destruct (string_dec (lower k) k) as [E | N].
  - rewrite E. apply dict_get_set_same.
  - rewrite dict_get_set_other by assumption. apply dict_get_set_same.
Qed.

Lemma step_get_other n k v k' :
  k <> k' -> lower k <> k' ->
  dict_get k' (normalize_step n (k, v)) = dict_get k' n.
Proof.
  intros N1 N2. unfold normalize_step. cbn [fst snd].
  now rewrite !dict_get_set_other.
Qed.

Lemma fold_get_other (l : dict) :
  forall n k',
    (forall kv, In kv l -> fst kv <> k' /\ lower (fst kv) <> k') ->
    dict_get k' (fold_left normalize_step l n) = dict_get k' n.
Proof.
  induction l as [|[k v] l IH]; intros n k' H; [reflexivity|].
  cbn [fold_left]. rewrite IH by (intros kv Hkv; apply H; now right).
  destruct (H (k, v) (or_introl eq_refl)) as [N1 N2].
  now apply step_get_other.
Qed.

Lemma fold_get_bound (l : dict) :
  forall n k v,
    NoDup (map (fun kv => lower (fst kv)) l) -> In (k, v) l ->
    dict_get k (fold_left normalize_step l n) = Some v /\
    dict_get (lower k) (fold_left normalize_step l n) = Some v.
Proof.
  induction l as [|[k0 v0] l IH]; intros n k v ND HI; [destruct HI|].
  cbn [map fst] in ND. apply NoDup_cons_iff in ND as [Hfresh ND].
  cbn [fold_left]. destruct HI as [E | HI]; [|now apply IH].
  injection E as -> ->.
  assert (Hl : forall kv, In kv l -> lower (fst kv) <> lower k).
  { intros kv Hkv E. apply Hfresh. rewrite <- E.
    now apply (in_map (fun kv => lower (fst kv))). }
  split.
  - rewrite fold_get_other; [apply step_get_key|].
    intros kv Hkv. split; intros E; apply (Hl kv Hkv).
    + now rewrite E.
    + now rewrite <- E, lower_idem.
  - rewrite fold_get_other; [apply step_get_lower|].
    intros kv Hkv. split; intros E; apply (Hl kv Hkv).
    + now rewrite E, lower_idem.
    + exact E.
Qed.

(** X15: when no two keys of a row have the same lower-case form,
    [normalize_data] keeps every binding of the row under its own key and
    makes it available under the lower-case form of the key as well. *)
Theorem normalize_keeps_and_lowers (item : dict) (k : string) (v : value) :
  NoDup (map (fun kv => lower (fst kv)) item) ->
  In (k, v) item ->
  dict_get k (normalize_item item) = Some v /\
  dict_get (lower k) (normalize_item item) = Some v.
Proof. intros ND HI. now apply (fold_get_bound item [] k v). Qed.

Lemma normalize_keeps_and_lowers_witness :
  let item := [("COLUMN_NAME", VStr "ID"); ("Data_Type", VStr "INT")] in
  NoDup (map (fun kv => lower (fst kv)) item) /\
  In ("Data_Type", VStr "INT") item /\
  dict_get "Data_Type" (normalize_item item) = Some (VStr "INT") /\
  dict_get "data_type" (normalize_item item) = Some (VStr "INT").
Proof.
  intros item.
  assert (ND : NoDup (map (fun kv => lower (fst kv)) item)).
  { constructor; [intros [H | []]; discriminate H|].
    constructor; [intros [] | constructor]. }
  assert (HI : In ("Data_Type", VStr "INT") item) by (right; now left).
  split; [exact ND|]. split; [exact HI|].
  exact (normalize_keeps_and_lowers item "Data_Type" (VStr "INT") ND HI).
Defined.

(** X16: after [normalize_data], the generator finds a field whatever
    the case of its name: if a row binds a key to a value that counts as
    true, and no two keys of the row agree up to case, then
    [_get_field_value] returns that value as text for every field name
    that agrees with the key up to case. *)
Theorem field_found_in_any_case (item : dict) (k field default : string)
        (v : value) :
  NoDup (map (fun kv => lower (fst kv)) item) ->
  In (k, v) item ->
  truthy v = true ->
  lower field = lower k ->
  _get_field_value (normalize_item item) field default = str v.
Proof.
  intros ND HI Hv Hf.
  destruct (fold_get_bound item [] k v ND HI) as [_ G].
  unfold _get_field_value, get_or_none. rewrite Hf.
  change (fold_left normalize_step item []) with (normalize_item item) in G.
  rewrite G.
  destruct v; [discriminate Hv | |]; cbn [is_none negb]; now rewrite Hv.
Qed.

Lemma field_found_in_any_case_witness :
  let item := [("Column_Name", VStr "ID"); ("Data_Length", VInt 20)] in
  NoDup (map (fun kv => lower (fst kv)) item) /\
  In ("Data_Length", VInt 20) item /\
  truthy (VInt 20) = true /\
  lower "DATA_LENGTH" = lower "Data_Length" /\
  _get_field_value (normalize_item item) "DATA_LENGTH" "" = "20" /\
  _get_field_value item "DATA_LENGTH" "" = "".
Proof.
  intros item.
  assert (ND : NoDup (map (fun kv => lower (fst kv)) item)).
  { constructor; [intros [H | []]; discriminate H|].
    constructor; [intros [] | constructor]. }
  assert (HI : In ("Data_Length", VInt 20) item) by (right; now left).
  split; [exact ND|]. split; [exact HI|]. split; [reflexivity|].
  split; [reflexivity|]. split; [|reflexivity].
  exact (field_found_in_any_case item "Data_Length" "DATA_LENGTH" ""
           (VInt 20) ND HI eq_refl eq_refl).
Defined.

(** *** The reference statement *)

(** X17: the CREATE TABLE text the generator writes for reference cannot
    be run through the service in ReadOnly or in LimitedWrite mode: for
    every table name, time stamp and column list its leading keyword is
    the comment mark, which is no operation of either mode. *)
Theorem reference_sql_not_executable (timestamp table : string)
        (structure : list dict) :
  let sql := generate_sql_create_statement timestamp table structure in
  keyword sql = "--" /\
  validate_sql sql READONLY = false /\
  validate_sql sql LIMITED_WRITE = false.
Proof.
  intros sql.
  assert (K : keyword sql = "--").
  { unfold sql, generate_sql_create_statement. cbn [String.append].
    match goal with
    | |- keyword (String "-" (String "-" (String " " ?r))) = _ =>
        apply (keyword_of_first_word "" "--" (String " " r));
          [reflexivity | discriminate | reflexivity | reflexivity]
    end. }
  rewrite validate_readonly_unfold, validate_limited_unfold, K.
  repeat split; reflexivity.
Qed.

(** *** The groups of constraints *)

Lemma mem_cons (x y : string) (l : list string) :
  Str.mem x (y :: l) = String.eqb x y || Str.mem x l.
Proof. reflexivity. Qed.

Lemma firsts_In (l : list string) :
  forall seen x, In x (firsts seen l) <-> In x l /\ ~ In x seen.
Proof.
  induction l as [|y l IH]; intros seen x; cbn [firsts In].
  - tauto.
  - destruct (Str.mem y seen) eqn:M.
    + apply mem_In in M. rewrite IH. split.
      * intros [H1 H2]. auto.
      * intros [[-> | H1] H2]; [now destruct H2 | auto].
    + assert (N : ~ In y seen) by (intros H; apply mem_In in H; congruence).
      cbn [In]. rewrite IH. cbn [In]. split.
      * intros [-> | [H1 H2]]; [auto | split; auto].
      * intros [[-> | H1] H2]; [now left|].
        destruct (string_dec y x) as [-> | D]; [now left | right].
        split; [assumption | intros [E | H]; auto].
Qed.

Lemma firsts_NoDup (l : list string) : forall seen, NoDup (firsts seen l).
Proof.
  induction l as [|y l IH]; intros seen; cbn [firsts]; [constructor|].
  destruct (Str.mem y seen); [apply IH|].
  constructor; [|apply IH].
  intros H. apply firsts_In in H as [_ H]. apply H. now left.
Qed.

Lemma firsts_app_one (l : list string) :
  forall seen t,
    firsts seen (l ++ [t])
    = (firsts seen l
         ++ (if Str.mem t seen || Str.mem t l then [] else [t]))%list.
Proof.
  induction l as [|y l IH]; intros seen t; cbn [app firsts].
  - destruct (Str.mem t seen); reflexivity.
  - destruct (Str.mem y seen) eqn:M.
    + rewrite IH, mem_cons.
      destruct (String.eqb_spec t y) as [-> | D]; [|reflexivity].
      now rewrite M.
    + rewrite IH, !mem_cons. cbn [app].
      now destruct (String.eqb t y), (Str.mem t seen), (Str.mem t l).
Qed.

Lemma filter_app_one (t : string) (l : list dict) (c : dict) :
  filter (of_type t) (l ++ [c])
  = (filter (of_type t) l ++ (if of_type t c then [c] else []))%list.
Proof. rewrite filter_app. reflexivity. Qed.

Lemma filter_none (t : string) (l : list dict) :
  ~ In t (map constraint_type_of l) -> filter (of_type t) l = [].
Proof.
  induction l as [|c l IH]; cbn [map In filter]; [reflexivity|].
  intros H. unfold of_type at 1.
  destruct (String.eqb_spec (constraint_type_of c) t) as [E | D].
  - destruct H. now left.
  - apply IH. intros HI. apply H. now right.
Qed.

Lemma add_constraint_map (l : list dict) (c : dict) (K : list string) :
  NoDup K ->
  add_constraint (constraint_type_of c) c
    (map (fun t => (t, filter (of_type t) l)) K)
  = (map (fun t => (t, filter (of_type t) (l ++ [c]))) K
       ++ (if Str.mem (constraint_type_of c) K then []
           else [(constraint_type_of c, [c])]))%list.
Proof.
  set (t := constraint_type_of c).
  induction K as [|t0 K IH]; intros ND; [reflexivity|].
  apply NoDup_cons_iff in ND as [Hfresh ND].
  cbn [map add_constraint]. rewrite mem_cons.
  destruct (String.eqb_spec t t0) as [E | D].
  - subst t0. cbn [orb]. rewrite app_nil_r. f_equal.
    + rewrite filter_app_one. unfold of_type at 3. fold t.
      now rewrite String.eqb_refl.
    + apply map_ext_in. intros t' Ht'. rewrite filter_app_one.
      unfold of_type at 3. fold t.
      destruct (String.eqb_spec t t') as [<- | _];
        [now destruct Hfresh | now rewrite app_nil_r].
  - cbn [orb app]. rewrite (IH ND). f_equal.
    rewrite filter_app_one. unfold of_type at 3. fold t.
    apply String.eqb_neq in D. now rewrite D, app_nil_r.
Qed.

Lemma mem_firsts (t : string) (X : list string) :
  Str.mem t (firsts [] X) = Str.mem t X.
Proof.
  destruct (Str.mem t X) eqn:M.
  - apply mem_In. apply firsts_In. apply mem_In in M. auto.
  - destruct (Str.mem t (firsts [] X)) eqn:M'; [|reflexivity].
    apply mem_In, firsts_In in M' as [M' _]. apply mem_In in M'. congruence.
Qed.

(** X18: the generator lists the constraints of a table by type: the
    types come in the order in which they first occur among the
    constraints, and under each type stand exactly the constraints of that
    type, in their original order. *)
Theorem constraints_grouped_by_type (constraints : list dict) :
  group_constraints constraints
  = map (fun t => (t, filter (of_type t) constraints))
        (firsts [] (map constraint_type_of constraints)).
Proof.
  induction constraints as [|c l IH] using rev_ind; [reflexivity|].
  unfold group_constraints in *. rewrite fold_left_app. cbn [fold_left].
  rewrite IH. fold (constraint_type_of c).
  rewrite add_constraint_map by apply firsts_NoDup.
  rewrite map_app. cbn [map]. rewrite firsts_app_one. cbn [Str.mem existsb orb].
  rewrite mem_firsts, map_app.
  destruct (Str.mem (constraint_type_of c) (map constraint_type_of l)) eqn:M.
  - reflexivity.
  - cbn [map]. rewrite filter_app_one, filter_none.
    + unfold of_type. now rewrite String.eqb_refl.
    + intros H. apply mem_In in H. congruence.
Qed.

End DocFacts.

(** ** What the phrase scan lets through *)

Module ScanFacts.
Import SQLValidator Re Spec Spec2.
Import StrFacts ReFacts Policy.

Lemma denotes_lits (w : string) :
  forall r prev m post,
    denotes (lits w ++ r)%list prev m post -> exists m', m = w ++ m'.
Proof.
  induction w as [|c w IH]; intros r prev m post D.
  - now exists m.
  - cbn in D. inversion D; subst.
    match goal with
    | H : denotes _ (Some c) _ _ |- _ => apply IH in H as (m' & ->)
    end.
    now exists m'.
Qed.

Lemma occurs_first_word (p w s : string) (r : regex) :
  compile p = Some (Bound :: (lits w ++ r)%list) -> occurs p s -> substring w s.
Proof.
  intros C (r0 & C0 & pre & m & post & -> & D).
  rewrite C in C0. injection C0 as <-.
  inversion D; subst.
  match goal with
  | H : denotes (lits w ++ r)%list _ _ _ |- _ => apply denotes_lits in H as (m' & ->)
  end.
  exists pre, (m' ++ post). now rewrite append_assoc.
Qed.

Lemma pattern_first_word (p : string) :
  In p dangerous_patterns ->
  exists w r, In w scan_words /\ compile p = Some (Bound :: (lits w ++ r)%list).
Proof.
  intros H. unfold scan_words.
  repeat destruct H as [<- | H]; [..| destruct H].
  - exists "DROP". eexists. split; [auto 10 using in_eq, in_cons | reflexivity].
  - exists "TRUNCATE". eexists.
    split; [auto 10 using in_eq, in_cons | reflexivity].
  - exists "DELETE". eexists.
    split; [auto 10 using in_eq, in_cons | reflexivity].
  - exists "INSERT". eexists.
    split; [auto 10 using in_eq, in_cons | reflexivity].
  - exists "UPDATE". eexists.
    split; [auto 10 using in_eq, in_cons | reflexivity].
  - exists "CREATE". eexists.
    split; [auto 10 using in_eq, in_cons | reflexivity].
  - exists "ALTER". eexists.
    split; [auto 10 using in_eq, in_cons | reflexivity].
Qed.

(** X19: a SELECT statement in which none of the seven words DROP,
    TRUNCATE, DELETE, INSERT, UPDATE, CREATE, ALTER occurs is allowed in
    ReadOnly mode, whatever else it contains: the scan of a SELECT does not
    look for GRANT or REVOKE, nor for further statements after a
    semicolon. *)
Theorem select_without_scan_words_allowed (sql : string) :
  keyword sql = "SELECT" ->
  (forall k, In k scan_words -> ~ substring k (normalized sql)) ->
  validate_sql sql READONLY = true.
Proof.
  intros K H. apply validate_readonly_spec.
  fold (normalized sql). fold (keyword sql). rewrite K.
  split; [now left|]. split; [|intros N; now destruct N].
  intros _ p Hp Ho.
  destruct (pattern_first_word p Hp) as (w & r & Hw & C).
  exact (H w Hw (occurs_first_word p w _ r C Ho)).
Qed.

Lemma select_without_scan_words_allowed_witness :
  let sql := "select name from t; grant dba to guest" in
  keyword sql = "SELECT" /\
  (forall k, In k scan_words -> ~ substring k (normalized sql)) /\
  validate_sql sql READONLY = true.
Proof.
  intros sql.
  assert (K : keyword sql = "SELECT") by reflexivity.
  assert (H : forall k, In k scan_words -> ~ substring k (normalized sql))
    by (apply no_substring_spec; reflexivity).
  split; [exact K|]. split; [exact H|].
  exact (select_without_scan_words_allowed sql K H).
Defined.

End ScanFacts.

(** ** Letter case beyond ASCII *)

Module CaseFacts.
Import SQLValidator Spec Spec2.


End CaseFacts.
